(** * Implicit matrix operators of pygimli/core/matrix.py

    A shallow embedding of the operator classes of
    [src/python/pygimli/core/matrix.py] (MultLeftMatrix, MultRightMatrix,
    MultLeftRightMatrix, Add2Matrix, Mult2Matrix, DiagonalMatrix,
    Cm05Matrix, NDMatrix) and the properties the specification states
    about them.

    Python objects become values of the inductive type [Matrix]; a method
    call [O.mult(x)] becomes [mult O x]; a raised exception becomes the
    [Raise] branch of [result]. An assignment [O.r = v] returns the
    updated object.

    What lies outside the module is a parameter of the model: the
    element type of the vectors and its arithmetic (class [Scalar]; the
    laws of exact arithmetic a statement relies on are explicit
    hypotheses, class [CommSemiring]), the behaviour of the vector type
    on operands of different length (class [VectorLib]), the leaf
    operators (record [leaf]) and [scipy.linalg.eigh]. *)

From Stdlib Require Import String List ZArith Lia Bool PeanoNat.
From Stdlib Require Floats.
Import ListNotations.

Local Open Scope string_scope.
Local Open Scope list_scope.
Local Open Scope nat_scope.

(** ** Exceptions and results *)

Inductive exn : Type :=
| Exception (msg : string)       (* raise Exception("...") *)
| AssertionError                 (* a failed assert statement *)
| AttributeError (name : string) (* missing attribute, or property without setter *)
| NameError (name : string)      (* unbound global name *)
| IndexError                     (* index out of range in x[perm] *)
| ValueError                     (* numpy: shapes not aligned *)
| LibraryError (code : nat).     (* raised inside the compiled core library *)

Inductive result (A : Type) : Type :=
| Ok (a : A)
| Raise (e : exn).

Arguments Ok {A} a.
Arguments Raise {A} e.

Definition bind {A B : Type} (r : result A) (k : A -> result B) : result B :=
  match r with
  | Ok a => k a
  | Raise e => Raise e
  end.

Definition fmap {A B : Type} (f : A -> B) (r : result A) : result B :=
  bind r (fun a => Ok (f a)).

Definition lift2 {A B C : Type} (f : A -> B -> C) (ra : result A) (rb : result B)
  : result C :=
  bind ra (fun a => bind rb (fun b => Ok (f a b))).

Notation "x <- e ;; k" := (bind e (fun x => k))
  (at level 61, e at next level, right associativity).

(** ** Scalars and the vector library *)

(** The element type of RVector / ndarray with the operations the module
    uses on it. *)
Class Scalar (R : Type) : Type := {
  s0 : R;
  s1 : R;
  sadd : R -> R -> R;
  smul : R -> R -> R;
  sdiv : R -> R -> R;
  ssqrt : R -> R
}.

(** The laws of exact arithmetic used by the algebraic statements. *)
Class CommSemiring (R : Type) {S : Scalar R} : Prop := {
  sadd_0_l : forall a : R, sadd s0 a = a;
  sadd_comm : forall a b : R, sadd a b = sadd b a;
  sadd_assoc : forall a b c : R, sadd a (sadd b c) = sadd (sadd a b) c;
  smul_comm : forall a b : R, smul a b = smul b a;
  smul_assoc : forall a b c : R, smul a (smul b c) = smul (smul a b) c;
  smul_add_distr_r : forall a b c : R, smul (sadd a b) c = sadd (smul a c) (smul b c)
}.

(** What the vector type does when [*] or [+] meets operands of different
    length is decided outside this module (RVector raises, an ndarray may
    broadcast); it is a parameter of the model. *)
Class VectorLib (R : Type) : Type := {
  mul_mismatch : list R -> list R -> result (list R);
  add_mismatch : list R -> list R -> result (list R)
}.

(** A vector library is strict when operands of different length are
    always refused. *)
Definition strict (R : Type) {V : VectorLib R} : Prop :=
  (forall a b, length a <> length b -> exists e, mul_mismatch a b = Raise e) /\
  (forall a b, length a <> length b -> exists e, add_mismatch a b = Raise e).

Section Vectors.
Context {R : Type} {S : Scalar R} {V : VectorLib R}.

Definition vec : Type := list R.

Fixpoint zipWith (f : R -> R -> R) (a b : vec) : vec :=
  match a, b with
  | x :: a', y :: b' => f x y :: zipWith f a' b'
  | _, _ => []
  end.

(** Element-wise product and sum of vectors of equal length. *)
Definition hadamard (a b : vec) : vec := zipWith smul a b.
Definition vplus (a b : vec) : vec := zipWith sadd a b.

Definition vsum (a : vec) : R := fold_right sadd s0 a.
Definition dot (a b : vec) : R := vsum (hadamard a b).

(** [a * b] and [a + b] on vector objects. *)
Definition vmul (a b : vec) : result vec :=
  if length a =? length b then Ok (hadamard a b) else mul_mismatch a b.
Definition vadd (a b : vec) : result vec :=
  if length a =? length b then Ok (vplus a b) else add_mismatch a b.

(** [x[perm]]: gather the entries of [x] at the indices [perm]. The
    indices are natural numbers (negative indices, masks and slices are
    outside the model); an index past the end raises, here as
    IndexError, which is what an ndarray raises. *)
Fixpoint take (x : vec) (perm : list nat) : result vec :=
  match perm with
  | [] => Ok []
  | i :: rest =>
      match nth_error x i with
      | Some a => r <- take x rest ;; Ok (a :: r)
      | None => Raise IndexError
      end
  end.

(** *** numpy two-dimensional arrays, as lists of rows *)

Definition ndarray : Type := list (list R).

Definition shape0 (M : ndarray) : nat := length M.
Definition shape1 (M : ndarray) : nat := length (hd [] M).

Definition column (j : nat) (M : ndarray) : vec := map (fun row => nth j row s0) M.


(** [np.dot(x, M)] for one-dimensional [x]. *)
Definition np_dot_vm (x : vec) (M : ndarray) : result vec :=
  if length x =? shape0 M
  then Ok (map (fun j => dot x (column j M)) (seq 0 (shape1 M)))
  else Raise ValueError.

(** [M.dot(N)] for two-dimensional [M] and [N]. *)
Definition np_dot_mm (M N : ndarray) : result ndarray :=
  if shape1 M =? shape0 N
  then Ok (map (fun row => map (fun j => dot row (column j N)) (seq 0 (shape1 N))) M)
  else Raise ValueError.

(** [v.reshape(-1, 1)] and [M.reshape(-1,)]. *)
Definition reshape_col (v : vec) : ndarray := map (fun a => [a]) v.
Definition reshape_flat (M : ndarray) : vec := concat M.

(** The matrix-vector product of linear algebra, [M·v]. *)
Definition matvec (M : ndarray) (v : vec) : vec := map (fun row => dot row v) M.

(** ** Operators *)

(** A leaf operator: a dense or sparse matrix of the core library, known
    only through the operator contract. *)
Record leaf : Type := {
  leaf_rows : nat;
  leaf_cols : nat;
  leaf_mult : vec -> result vec;
  leaf_transMult : vec -> result vec
}.

(** The objects of the module. A field holds what the corresponding
    instance attribute holds: [_A], [_l], [_r] for the wrappers, [A], [B]
    for the combinators, [d] for DiagonalMatrix, [size], [ew], [EV],
    [mul], [A] for Cm05Matrix. [perm] is the instance attribute [perm]
    read by MultRightMatrix.mult; no code of the module sets it. *)
Inductive Matrix : Type :=
| Leaf (L : leaf)
| MultLeftMatrix (A : Matrix) (l : vec)
| MultRightMatrix (A : Matrix) (r : vec) (perm : option (list nat))
| MultLeftRightMatrix (A : Matrix) (l r : vec)
| Add2Matrix (A B : Matrix)
| Mult2Matrix (A B : Matrix)
| DiagonalMatrix (d : vec)
| Cm05Matrix (size : nat) (ew : vec) (EV : ndarray) (mul : vec) (A : ndarray).

(** *** Properties declared in the class bodies

    The wrappers declare their weight vectors through [@property] and
    [@<name>.setter]. The class namespace is computed from the statements
    of the class body, in order, as Python does. *)

Inductive slot : Type := slot_l | slot_r.   (* the attributes _l and _r *)
Inductive attr : Type := attr_l | attr_r.   (* the names l and r *)

Definition attr_eqb (a b : attr) : bool :=
  match a, b with
  | attr_l, attr_l | attr_r, attr_r => true
  | _, _ => false
  end.

Definition attr_name (a : attr) : string :=
  match a with attr_l => "l" | attr_r => "r" end.

Record property : Type := { fget : option slot; fset : option slot }.

Inductive class_stmt : Type :=
| PropertyDef (name : attr) (reads : slot)
    (* @property / def name(self): return self.<reads> *)
| SetterDef (prop name : attr) (writes : slot).
    (* @prop.setter / def name(self, v): self.<writes> = v *)

Definition namespace : Type := attr -> option property.

Definition empty_ns : namespace := fun _ => None.

Definition bind_name (n : attr) (p : property) (ns : namespace) : namespace :=
  fun m => if attr_eqb m n then Some p else ns m.

(** [property(f)] has no setter; [p.setter(f)] is a copy of [p] with the
    setter replaced, and the [def] binds it to the name of the function. *)
Fixpoint exec_class_body (body : list class_stmt) (ns : namespace)
  : result namespace :=
  match body with
  | [] => Ok ns
  | PropertyDef n s :: rest =>
      exec_class_body rest (bind_name n {| fget := Some s; fset := None |} ns)
  | SetterDef p n s :: rest =>
      match ns p with
      | Some q =>
          exec_class_body rest (bind_name n {| fget := fget q; fset := Some s |} ns)
      | None => Raise (NameError (attr_name p))
      end
  end.

Definition MultLeftMatrix_body : list class_stmt :=
  [ PropertyDef attr_l slot_l; SetterDef attr_l attr_r slot_l ].

Definition MultRightMatrix_body : list class_stmt :=
  [ PropertyDef attr_r slot_r; SetterDef attr_r attr_r slot_r ].

Definition MultLeftRightMatrix_body : list class_stmt :=
  [ PropertyDef attr_l slot_l; SetterDef attr_l attr_r slot_l;
    PropertyDef attr_r slot_r; SetterDef attr_r attr_r slot_r ].

(** The statements binding [l] or [r] in the class of an object. *)
Definition class_body (O : Matrix) : list class_stmt :=
  match O with
  | MultLeftMatrix _ _ => MultLeftMatrix_body
  | MultRightMatrix _ _ _ => MultRightMatrix_body
  | MultLeftRightMatrix _ _ _ => MultLeftRightMatrix_body
  | _ => []
  end.

Definition read_slot (s : slot) (O : Matrix) : result vec :=
  match s, O with
  | slot_l, MultLeftMatrix _ l => Ok l
  | slot_l, MultLeftRightMatrix _ l _ => Ok l
  | slot_r, MultRightMatrix _ r _ => Ok r
  | slot_r, MultLeftRightMatrix _ _ r => Ok r
  | slot_l, _ => Raise (AttributeError "_l")
  | slot_r, _ => Raise (AttributeError "_r")
  end.

(** A slot the class never reads is left out of the modelled state. *)
Definition write_slot (s : slot) (v : vec) (O : Matrix) : Matrix :=
  match s, O with
  | slot_l, MultLeftMatrix A _ => MultLeftMatrix A v
  | slot_l, MultLeftRightMatrix A _ r => MultLeftRightMatrix A v r
  | slot_r, MultRightMatrix A _ perm => MultRightMatrix A v perm
  | slot_r, MultLeftRightMatrix A l _ => MultLeftRightMatrix A l v
  | _, _ => O
  end.

(** [O.n]: a property of the class answers through its getter. *)
Definition getattr (O : Matrix) (n : attr) : result vec :=
  ns <- exec_class_body (class_body O) empty_ns ;;
  match ns n with
  | Some p =>
      match fget p with
      | Some s => read_slot s O
      | None => Raise (AttributeError (attr_name n))
      end
  | None => Raise (AttributeError (attr_name n))
  end.

(** [O.n = v]: a property of the class answers through its setter and
    refuses when it has none. A name the class does not bind lands in
    the instance dictionary, which no method reads for [l] or [r]. *)
Definition setattr (O : Matrix) (n : attr) (v : vec) : result Matrix :=
  ns <- exec_class_body (class_body O) empty_ns ;;
  match ns n with
  | Some p =>
      match fset p with
      | Some s => Ok (write_slot s v O)
      | None => Raise (AttributeError (attr_name n))
      end
  | None => Ok O
  end.

(** [self.perm] *)
Definition getattr_perm (perm : option (list nat)) : result (list nat) :=
  match perm with
  | Some p => Ok p
  | None => Raise (AttributeError "perm")
  end.

(** *** rows, cols *)

Fixpoint rows (O : Matrix) : nat :=
  match O with
  | Leaf L => leaf_rows L
  | MultLeftMatrix A _ | MultRightMatrix A _ _ | MultLeftRightMatrix A _ _ => rows A
  | Add2Matrix A _ => rows A
  | Mult2Matrix A _ => rows A
  | DiagonalMatrix d => length d
  | Cm05Matrix size _ _ _ _ => size
  end.

Fixpoint cols (O : Matrix) : nat :=
  match O with
  | Leaf L => leaf_cols L
  | MultLeftMatrix A _ | MultRightMatrix A _ _ | MultLeftRightMatrix A _ _ => cols A
  | Add2Matrix A _ => cols A
  | Mult2Matrix _ B => cols B
  | DiagonalMatrix d => length d
  | Cm05Matrix size _ _ _ _ => size
  end.

(** *** mult, transMult *)

(** Cm05Matrix.mult:
    [part1 = (np.dot(np.transpose(x), self.EV).T*self.mul).reshape(-1, 1)]
    [return self.EV.dot(part1).reshape(-1,)]
    ([np.transpose] and [.T] leave a one-dimensional array as it is). *)
Definition Cm05_mult (EV : ndarray) (mul : vec) (x : vec) : result vec :=
  p <- np_dot_vm x EV ;;
  q <- vmul p mul ;;
  r <- np_dot_mm EV (reshape_col q) ;;
  Ok (reshape_flat r).

Fixpoint mult (O : Matrix) (x : vec) {struct O} : result vec :=
  match O with
  | Leaf L => leaf_mult L x
  | MultLeftMatrix A _ =>
      ax <- mult A x ;;
      l <- getattr O attr_l ;;
      vmul ax l
  | MultRightMatrix A _ perm =>
      r <- getattr O attr_r ;;
      if negb (length x =? length r) then
        p <- getattr_perm perm ;;
        xp <- take x p ;;
        r' <- getattr O attr_r ;;
        xr <- vmul xp r' ;;
        mult A xr
      else
        r' <- getattr O attr_r ;;
        xr <- vmul x r' ;;
        mult A xr
  | MultLeftRightMatrix A l r =>
      xr <- vmul x r ;;
      ax <- mult A xr ;;
      vmul ax l
  | Add2Matrix A B =>
      a <- mult A x ;;
      b <- mult B x ;;
      vadd a b
  | Mult2Matrix A B =>
      bx <- mult B x ;;
      mult A bx
  | DiagonalMatrix d => vmul x d
  | Cm05Matrix _ _ EV mul _ => Cm05_mult EV mul x
  end.

Fixpoint transMult (O : Matrix) (x : vec) {struct O} : result vec :=
  match O with
  | Leaf L => leaf_transMult L x
  | MultLeftMatrix A _ =>
      l <- getattr O attr_l ;;
      xl <- vmul x l ;;
      transMult A xl
  | MultRightMatrix A _ _ =>
      ax <- transMult A x ;;
      r <- getattr O attr_r ;;
      vmul ax r
  | MultLeftRightMatrix A l r =>
      xl <- vmul x l ;;
      ax <- transMult A xl ;;
      vmul ax r
  | Add2Matrix A B =>
      a <- transMult A x ;;
      b <- transMult B x ;;
      vadd a b
  | Mult2Matrix A B =>
      ax <- transMult A x ;;
      transMult B ax
  | DiagonalMatrix d => vmul x d
  | Cm05Matrix _ _ _ _ _ => mult O x
  end.

(** *** Constructors

    [__init__] of each class, returning the object built or the exception
    raised. The argument [verbose] of the wrappers is handed to
    MatrixBase and changes nothing here; it is left out. MultMatrix's
    [rows] and [cols] ask the wrapped operator, as [rows] and [cols]
    above do. *)

Definition MultLeftMatrix_init (A : Matrix) (left : vec) : result Matrix :=
  if negb (rows A =? length left)
  then Raise (Exception "Matrix columns do not fit vector length!")
  else Ok (MultLeftMatrix A left).

(** [None] stands for the default argument [r=None]; no comparison of
    [len(r)] with [A.cols()] takes place. *)
Definition MultRightMatrix_init (A : Matrix) (r : option vec) : result Matrix :=
  match r with
  | None => Ok (MultRightMatrix A (repeat s1 (cols A)) None)
  | Some r => Ok (MultRightMatrix A r None)
  end.

Definition MultLeftRightMatrix_init (A : Matrix) (left right : vec) : result Matrix :=
  if negb (cols A =? length right)
  then Raise (Exception "Matrix columns do not fit right vector length!")
  else if negb (rows A =? length left)
  then Raise (Exception "Matrix rows do not fit left vector length!")
  else Ok (MultLeftRightMatrix A left right).

(** The two [assert] statements of Add2Matrix, the one of Mult2Matrix. *)
Definition Add2Matrix_init (A B : Matrix) : result Matrix :=
  if negb (rows A =? rows B) then Raise AssertionError
  else if negb (cols A =? cols B) then Raise AssertionError
  else Ok (Add2Matrix A B).

Definition Mult2Matrix_init (A B : Matrix) : result Matrix :=
  if negb (cols A =? rows B) then Raise AssertionError
  else Ok (Mult2Matrix A B).

Definition DiagonalMatrix_init (d : vec) : result Matrix := Ok (DiagonalMatrix d).

(** [scipy.linalg.eigh] is a parameter: it returns the eigenvalues and
    the matrix of eigenvectors, or raises. [verbose] only switches a log
    line on. *)
Definition Cm05Matrix_init (eigh : ndarray -> result (vec * ndarray))
           (A : ndarray) (verbose : bool) : result Matrix :=
  if negb (shape0 A =? shape1 A)
  then Raise (Exception "Matrix must by square (and symmetric)!")
  else
    wv <- eigh A ;;
    let ew := fst wv in
    let EV := snd wv in
    let mul := map (fun w => ssqrt (sdiv s1 w)) ew in
    Ok (Cm05Matrix (shape0 A) ew EV mul A).

End Vectors.

Arguments vec R : clear implicits.
Arguments ndarray R : clear implicits.
Arguments leaf R : clear implicits.
Arguments Matrix R : clear implicits.

(** ** Dimension invariants and the operator contract *)

Section Contract.
Context {R : Type} {S : Scalar R} {V : VectorLib R}.
Implicit Types (A B O : Matrix R) (l r x y u v a b d : vec R).
Implicit Types (perm : option (list nat)) (L : leaf R).

(** A leaf returns outputs of the contract's length on inputs of the
    contract's length. *)
Definition sized_leaf (L : leaf R) : Prop :=
  (forall x, length x = leaf_cols L ->
     exists u, leaf_mult L x = Ok u /\ length u = leaf_rows L) /\
  (forall y, length y = leaf_rows L ->
     exists v, leaf_transMult L y = Ok v /\ length v = leaf_cols L).

(** A leaf refuses inputs of any other length. *)
Definition checking_leaf (L : leaf R) : Prop :=
  (forall x, length x <> leaf_cols L -> exists e, leaf_mult L x = Raise e) /\
  (forall y, length y <> leaf_rows L -> exists e, leaf_transMult L y = Raise e).

(** A leaf is adjoint-consistent. *)
Definition adjoint_leaf (L : leaf R) : Prop :=
  forall x y u v, length x = leaf_cols L -> length y = leaf_rows L ->
    leaf_mult L x = Ok u -> leaf_transMult L y = Ok v -> dot u y = dot x v.

(** Every leaf of an operator tree satisfies [P]. *)
Fixpoint leaves (P : leaf R -> Prop) (O : Matrix R) : Prop :=
  match O with
  | Leaf L => P L
  | MultLeftMatrix A _ | MultRightMatrix A _ _ | MultLeftRightMatrix A _ _ => leaves P A
  | Add2Matrix A B | Mult2Matrix A B => leaves P A /\ leaves P B
  | DiagonalMatrix _ => True
  | Cm05Matrix _ _ _ _ _ => True
  end.

(** The dimension invariants of the data model: weight vectors have the
    length of the base dimension they scale, the operands of a sum have
    one shape, the inner dimensions of a product agree, and the stored
    eigenbasis and scales of an inverse-square-root operator have its
    size. *)
Fixpoint consistent (O : Matrix R) : Prop :=
  match O with
  | Leaf _ => True
  | MultLeftMatrix A l => consistent A /\ length l = rows A
  | MultRightMatrix A r _ => consistent A /\ length r = cols A
  | MultLeftRightMatrix A l r =>
      consistent A /\ length r = cols A /\ length l = rows A
  | Add2Matrix A B =>
      consistent A /\ consistent B /\ rows A = rows B /\ cols A = cols B
  | Mult2Matrix A B => consistent A /\ consistent B /\ cols A = rows B
  | DiagonalMatrix _ => True
  | Cm05Matrix size _ EV mul _ =>
      length EV = size /\ Forall (fun row => length row = size) EV /\
      length mul = size
  end.

(** No MultRightMatrix of the tree carries a [perm] attribute. *)
Fixpoint no_perm (O : Matrix R) : Prop :=
  match O with
  | MultRightMatrix A _ perm => perm = None /\ no_perm A
  | MultLeftMatrix A _ | MultLeftRightMatrix A _ _ => no_perm A
  | Add2Matrix A B | Mult2Matrix A B => no_perm A /\ no_perm B
  | Leaf _ | DiagonalMatrix _ | Cm05Matrix _ _ _ _ _ => True
  end.

(** The tree is built from leaves, scaling wrappers, sums, products and
    diagonal operators only. *)
Fixpoint composite (O : Matrix R) : Prop :=
  match O with
  | MultLeftMatrix A _ | MultRightMatrix A _ _ | MultLeftRightMatrix A _ _ => composite A
  | Add2Matrix A B | Mult2Matrix A B => composite A /\ composite B
  | Leaf _ | DiagonalMatrix _ => True
  | Cm05Matrix _ _ _ _ _ => False
  end.

(** [A] returns vectors of the contract's length. *)
Definition returns_sized (A : Matrix R) : Prop :=
  (forall x u, length x = cols A -> mult A x = Ok u -> length u = rows A) /\
  (forall y v, length y = rows A -> transMult A y = Ok v -> length v = cols A).

(** [IdentityMatrix(n)]: returns its input, refuses any other length. *)
Definition identity_leaf (n : nat) : leaf R :=
  {| leaf_rows := n; leaf_cols := n;
     leaf_mult := fun x => if length x =? n then Ok x else Raise (LibraryError 1);
     leaf_transMult := fun y => if length y =? n then Ok y else Raise (LibraryError 1) |}.

End Contract.

(** ** NDMatrix and the block container *)

Module Block.

(** Modelled from the spec: a dense block of the core library
    ([pg.Matrix()], [resize]), which is compiled code outside src/; known
    by its shape. *)
Record RMatrix : Type := { m_rows : nat; m_cols : nat }.

Definition resize (M : RMatrix) (nrows ncols : nat) : RMatrix :=
  {| m_rows := nrows; m_cols := ncols |}.

(** Modelled from the spec: the block container [pgcore.RBlockMatrix]
    (constructor, addMatrix, addMatrixEntry, recalcMatrixSize, rows, cols)
    is compiled code outside src/. It is an ordered collection of entries
    (sub-operator, row offset, column offset); rows and cols are the
    maximum of row offset + sub.rows and of column offset + sub.cols over
    all entries. [keep] is the attribute [__mats__] that the patched
    addMatrix of the module maintains. *)
Record BlockMatrix : Type := {
  mats : list RMatrix;
  entries : list (nat * nat * nat);
  brows : nat;
  bcols : nat;
  keep : option (list RMatrix)
}.

Definition BlockMatrix_init : BlockMatrix :=
  {| mats := []; entries := []; brows := 0; bcols := 0; keep := None |}.

(** [__BlockMatrix_addMatrix__]: register a matrix, return its index. *)
Definition addMatrix_core (self : BlockMatrix) (M : RMatrix) : BlockMatrix * nat :=
  ({| mats := mats self ++ [M]; entries := entries self;
      brows := brows self; bcols := bcols self; keep := keep self |},
   length (mats self)).

(** [__BlockMatrix_addMatrix_happy_GC__], installed as [addMatrix]. *)
Definition addMatrix (self : BlockMatrix) (M : RMatrix) : BlockMatrix * nat :=
  let held := match keep self with Some ms => ms | None => [] end in
  addMatrix_core
    {| mats := mats self; entries := entries self;
       brows := brows self; bcols := bcols self; keep := Some (held ++ [M]) |} M.

Definition extent (dim : RMatrix -> nat) (ms : list RMatrix)
           (off : nat * nat * nat -> nat) (es : list (nat * nat * nat)) : nat :=
  fold_right Nat.max 0
    (map (fun e => off e + match nth_error ms (fst (fst e)) with
                           | Some M => dim M
                           | None => 0
                           end) es).

Definition recalcMatrixSize (self : BlockMatrix) : BlockMatrix :=
  {| mats := mats self; entries := entries self;
     brows := extent m_rows (mats self) (fun e => snd (fst e)) (entries self);
     bcols := extent m_cols (mats self) (fun e => snd e) (entries self);
     keep := keep self |}.

(** Adding an entry recomputes the extents. *)
Definition addMatrixEntry (self : BlockMatrix) (n rowOffset colOffset : nat)
  : BlockMatrix :=
  recalcMatrixSize
    {| mats := mats self; entries := entries self ++ [(n, rowOffset, colOffset)];
       brows := brows self; bcols := bcols self; keep := keep self |}.

(** The names bound at module level of matrix.py: the imports, the
    aliases and the classes and functions the module defines. *)
Definition module_globals : list string :=
  [ "time"; "np"; "pgcore";
    "CMatrix"; "CSparseMapMatrix"; "CSparseMatrix"; "ElementMatrix";
    "IVector"; "MatrixBase"; "R3Vector"; "RVector"; "warn";
    "BlockMatrix"; "IdentityMatrix"; "SparseMapMatrix"; "SparseMatrix";
    "Vector"; "Matrix";
    "MultMatrix"; "MultLeftMatrix"; "LMultRMatrix";
    "MultRightMatrix"; "RMultRMatrix";
    "MultLeftRightMatrix"; "LRMultRMatrix";
    "__BlockMatrix_addMatrix__"; "__BlockMatrix_addMatrix_happy_GC__";
    "Add2Matrix"; "Mult2Matrix"; "DiagonalMatrix"; "Cm05Matrix"; "NDMatrix" ].

(** Evaluation of a global name that is no builtin. *)
Definition lookup_global (globals : list string) (name : string) : result unit :=
  if existsb (String.eqb name) globals then Ok tt else Raise (NameError name).

(** An NDMatrix instance: the inherited block container and [Ji]. *)
Record NDMatrix : Type := { block : BlockMatrix; Ji : list RMatrix }.

(** The body of [for i in range(num)], for the values [idx] of [i]. *)
Fixpoint NDMatrix_loop (globals : list string) (nrows ncols : nat)
         (idx : list nat) (self : NDMatrix) : result NDMatrix :=
  match idx with
  | [] => Ok self
  | i :: rest =>
      _ <- lookup_global globals "pg" ;;            (* pg.Matrix() *)
      let M := resize {| m_rows := 0; m_cols := 0 |} nrows ncols in
      let (B, n) := addMatrix (block self) M in
      let B' := addMatrixEntry B n (nrows * i) (ncols * i) in
      NDMatrix_loop globals nrows ncols rest {| block := B'; Ji := Ji self ++ [M] |}
  end.

(** [NDMatrix.__init__]; the second component is what [print] writes. *)
Definition NDMatrix_init (globals : list string) (num nrows ncols : nat)
  : result (NDMatrix * (nat * nat)) :=
  self <- NDMatrix_loop globals nrows ncols (seq 0 num)
            {| block := BlockMatrix_init; Ji := [] |} ;;
  let B := recalcMatrixSize (block self) in
  Ok ({| block := B; Ji := Ji self |}, (brows B, bcols B)).

(** [NDMatrix(num, nrows, ncols)] for a Python integer [num]:
    [range(num)] has [Z.to_nat num] elements, none when [num] is
    negative. *)
Definition NDMatrix_call (globals : list string) (num : Z) (nrows ncols : nat)
  : result (NDMatrix * (nat * nat)) :=
  NDMatrix_init globals (Z.to_nat num) nrows ncols.

(** The entry of block [i] of a block-diagonal matrix. *)
Definition placed (nrows ncols : nat) (i : nat) : nat * nat * nat :=
  (i, nrows * i, ncols * i).

End Block.

(** ** Instances used for concrete runs: integers, and a vector library
    that refuses operands of different length *)

#[export] Instance Z_Scalar : Scalar Z :=
  {| s0 := 0%Z; s1 := 1%Z; sadd := Z.add; smul := Z.mul;
     sdiv := Z.div; ssqrt := Z.sqrt |}.

#[export] Instance strict_lib (R : Type) : VectorLib R :=
  {| mul_mismatch := fun _ _ => Raise (LibraryError 0);
     add_mismatch := fun _ _ => Raise (LibraryError 0) |}.

(** An operator tree used for concrete runs. *)
Definition sample_operator : Matrix Z :=
  Add2Matrix (MultLeftMatrix (Leaf (identity_leaf 2)) [3; 4]%Z)
        (Mult2Matrix (MultRightMatrix (DiagonalMatrix [5; 6]%Z) [7; 8]%Z None)
                (MultLeftRightMatrix (Leaf (identity_leaf 2)) [1; 2]%Z [3; 1]%Z)).

(** ** Construction histories *)

Section Built.
Context {R : Type} {S : Scalar R}.

(** [eigh] returns, for [M], eigenvalues and eigenvectors of the size of
    [M] (what scipy.linalg.eigh returns for a square matrix). *)
Definition eigh_sized (eigh : ndarray R -> result (vec R * ndarray R))
           (M : ndarray R) : Prop :=
  forall ew EV, eigh M = Ok (ew, EV) ->
    length ew = shape0 M /\ length EV = shape0 M /\
    Forall (fun row => length row = shape0 M) EV.

(** The operators obtained from leaves by the constructors of the module,
    MultRightMatrix being called with its default weight vector. *)
Inductive built : Matrix R -> Prop :=
| built_Leaf (L : leaf R) : built (Leaf L)
| built_Diagonal (d : vec R) (O : Matrix R) :
    DiagonalMatrix_init d = Ok O -> built O
| built_MultLeft (A : Matrix R) (l : vec R) (O : Matrix R) :
    built A -> MultLeftMatrix_init A l = Ok O -> built O
| built_MultRight_default (A O : Matrix R) :
    built A -> MultRightMatrix_init A None = Ok O -> built O
| built_MultLeftRight (A : Matrix R) (l r : vec R) (O : Matrix R) :
    built A -> MultLeftRightMatrix_init A l r = Ok O -> built O
| built_Add2 (A B O : Matrix R) :
    built A -> built B -> Add2Matrix_init A B = Ok O -> built O
| built_Mult2 (A B O : Matrix R) :
    built A -> built B -> Mult2Matrix_init A B = Ok O -> built O
| built_Cm05 (eigh : ndarray R -> result (vec R * ndarray R))
             (M : ndarray R) (verbose : bool) (O : Matrix R) :
    eigh_sized eigh M -> Cm05Matrix_init eigh M verbose = Ok O -> built O.

(** A leaf is additive: the image of a sum is the sum of the images. *)
Definition additive_leaf (L : leaf R) : Prop :=
  (forall x x' u u' w, length x = leaf_cols L -> length x' = leaf_cols L ->
     leaf_mult L x = Ok u -> leaf_mult L x' = Ok u' ->
     leaf_mult L (vplus x x') = Ok w -> w = vplus u u') /\
  (forall y y' v v' w, length y = leaf_rows L -> length y' = leaf_rows L ->
     leaf_transMult L y = Ok v -> leaf_transMult L y' = Ok v' ->
     leaf_transMult L (vplus y y') = Ok w -> w = vplus v v').

End Built.

(** ** Setters *)

(** The class of [O] binds the name [n] to a property that has a
    setter. *)
Definition has_setter {R : Type} (O : Matrix R) (n : attr) : Prop :=
  exists ns p s,
    exec_class_body (class_body O) empty_ns = Ok ns /\
    ns n = Some p /\ fset p = Some s.

(** ** Double precision *)

Module Binary64.
Import Floats.

(** The scalars of an RVector or of a float64 ndarray. *)
#[export] Instance float_Scalar : Scalar float :=
  {| s0 := 0%float; s1 := 1%float;
     sadd := PrimFloat.add; smul := PrimFloat.mul;
     sdiv := PrimFloat.div; ssqrt := PrimFloat.sqrt |}.


End Binary64.

(** ** Sequences of calls on a block container *)

Module BlockCalls.
Import Block.

Inductive call : Type :=
| call_addMatrix (M : RMatrix)
| call_addMatrixEntry (n rowOffset colOffset : nat)
| call_recalcMatrixSize.

Definition run_call (self : BlockMatrix) (c : call) : BlockMatrix :=
  match c with
  | call_addMatrix M => fst (addMatrix self M)
  | call_addMatrixEntry n r c => addMatrixEntry self n r c
  | call_recalcMatrixSize => recalcMatrixSize self
  end.

Definition run_calls (cs : list call) (self : BlockMatrix) : BlockMatrix :=
  fold_left run_call cs self.

(** The matrices that [__mats__] holds; none before the first addMatrix. *)
Definition held (self : BlockMatrix) : list RMatrix :=
  match keep self with
  | Some ms => ms
  | None => []
  end.

End BlockCalls.

(** An operator obtained by the constructors, used for concrete runs. *)
Definition built_sample : Matrix Z :=
  Add2Matrix (MultLeftMatrix (Leaf (identity_leaf 2)) [3; 4]%Z)
             (MultRightMatrix (DiagonalMatrix [5; 6]%Z) [1; 1]%Z None).


(** * Properties *)

#[export] Instance Z_CommSemiring : CommSemiring Z.
Proof.
  constructor; simpl; intros; lia.
Qed.

Lemma strict_lib_strict (R : Type) : @strict R (strict_lib R).
Proof.
  split; intros a b _; exists (LibraryError 0); reflexivity.
Qed.

(** A right-scaled 2×2 identity with weights [2, 1], applied to [1, 1]. *)
Example scaled_identity_run :
  (O <- MultRightMatrix_init (Leaf (identity_leaf 2)) (Some [2; 1]%Z) ;;
   mult O [1; 1]%Z) = Ok [2; 1]%Z.
Proof. reflexivity. Qed.

(** ** Vectors and methods *)

Section Methods.
Context {R : Type} {S : Scalar R} {V : VectorLib R}.
Implicit Types (A B O : Matrix R) (l r x y u v a b d : vec R).
Implicit Types (perm : option (list nat)) (L : leaf R).

Lemma zipWith_length (f : R -> R -> R) a b :
  length a = length b -> length (zipWith f a b) = length a.
Proof.
  revert b; induction a as [|x a IH]; intros [|y b] H; simpl in *;
    try reflexivity; try discriminate.
  f_equal; apply IH; lia.
Qed.

Lemma hadamard_length a b :
  length a = length b -> length (hadamard a b) = length a.
Proof. apply zipWith_length. Qed.

Lemma vplus_length a b :
  length a = length b -> length (vplus a b) = length a.
Proof. apply zipWith_length. Qed.

Lemma vmul_same a b :
  length a = length b -> vmul a b = Ok (hadamard a b).
Proof.
  intros H; unfold vmul; rewrite H, Nat.eqb_refl; reflexivity.
Qed.

Lemma vadd_same a b :
  length a = length b -> vadd a b = Ok (vplus a b).
Proof.
  intros H; unfold vadd; rewrite H, Nat.eqb_refl; reflexivity.
Qed.

Lemma vmul_refused a b :
  strict R -> length a <> length b -> exists e, vmul a b = Raise e.
Proof.
  intros [Hm _] H; unfold vmul.
  apply Nat.eqb_neq in H as E; rewrite E; auto.
Qed.

Lemma vadd_refused a b :
  strict R -> length a <> length b -> exists e, vadd a b = Raise e.
Proof.
  intros [_ Ha] H; unfold vadd.
  apply Nat.eqb_neq in H as E; rewrite E; auto.
Qed.

(** *** The methods, class by class *)

Lemma getattr_MultLeftMatrix_l A l : getattr (MultLeftMatrix A l) attr_l = Ok l.
Proof. reflexivity. Qed.

Lemma getattr_MultRightMatrix_r A r perm : getattr (MultRightMatrix A r perm) attr_r = Ok r.
Proof. reflexivity. Qed.

Lemma mult_MultLeftMatrix A l x :
  mult (MultLeftMatrix A l) x = (ax <- mult A x ;; vmul ax l).
Proof. reflexivity. Qed.

Lemma transMult_MultLeftMatrix A l y :
  transMult (MultLeftMatrix A l) y = (yl <- vmul y l ;; transMult A yl).
Proof. reflexivity. Qed.

Lemma mult_MultRightMatrix A r perm x :
  mult (MultRightMatrix A r perm) x =
  if negb (length x =? length r)
  then p <- getattr_perm perm ;; xp <- take x p ;; xr <- vmul xp r ;; mult A xr
  else xr <- vmul x r ;; mult A xr.
Proof. reflexivity. Qed.

Lemma transMult_MultRightMatrix A r perm y :
  transMult (MultRightMatrix A r perm) y = (ay <- transMult A y ;; vmul ay r).
Proof. reflexivity. Qed.

Lemma mult_MultLeftRightMatrix A l r x :
  mult (MultLeftRightMatrix A l r) x =
  (xr <- vmul x r ;; ax <- mult A xr ;; vmul ax l).
Proof. reflexivity. Qed.

Lemma transMult_MultLeftRightMatrix A l r y :
  transMult (MultLeftRightMatrix A l r) y =
  (yl <- vmul y l ;; ay <- transMult A yl ;; vmul ay r).
Proof. reflexivity. Qed.

End Methods.

(** ** The inverse-square-root operator on well-shaped data *)

Section Cm05.
Context {R : Type} {S : Scalar R} {V : VectorLib R}.
Implicit Types (x q mul : vec R) (EV : ndarray R).

Lemma shape1_square EV n :
  length EV = n -> Forall (fun row => length row = n) EV -> shape1 EV = n.
Proof.
  intros Hn Hrows; unfold shape1.
  destruct EV as [|row EV]; simpl in *; [assumption|].
  inversion Hrows; assumption.
Qed.

Lemma column_reshape_col q : column 0 (reshape_col q) = q.
Proof.
  unfold column, reshape_col; rewrite map_map; simpl; apply map_id.
Qed.

Lemma flat_single_column (f : vec R -> R) EV :
  reshape_flat (map (fun row => map (fun _ : nat => f row) (seq 0 1)) EV) = map f EV.
Proof.
  unfold reshape_flat; induction EV as [|row EV IH]; simpl; [reflexivity|].
  f_equal; exact IH.
Qed.

(** What Cm05Matrix.mult computes when the stored arrays have the size
    of the operator. *)
Lemma Cm05_mult_eq EV mul x n :
  length EV = n -> Forall (fun row => length row = n) EV ->
  length mul = n -> length x = n ->
  Cm05_mult EV mul x =
  Ok (matvec EV (hadamard (map (fun j => dot x (column j EV)) (seq 0 n)) mul)).
Proof.
  intros HEV Hrows Hmul Hx.
  pose proof (shape1_square EV n HEV Hrows) as Hs1.
  unfold Cm05_mult, np_dot_vm, shape0.
  rewrite Hx, HEV, Nat.eqb_refl, Hs1; simpl.
  set (p := map (fun j => dot x (column j EV)) (seq 0 n)).
  assert (Hp : length p = n) by (unfold p; rewrite length_map, length_seq; reflexivity).
  rewrite vmul_same by lia; simpl.
  set (q := hadamard p mul).
  assert (Hq : length q = n) by (unfold q; rewrite hadamard_length; lia).
  unfold np_dot_mm, shape0.
  replace (length (reshape_col q)) with n
    by (unfold reshape_col; rewrite length_map; lia).
  rewrite Hs1, Nat.eqb_refl; simpl.
  f_equal.
  destruct q as [|a q'] eqn:Eq.
  - simpl in Hq; subst n.
    destruct EV; [reflexivity | discriminate].
  - rewrite <- Eq.
    replace (shape1 (reshape_col q)) with 1 by (rewrite Eq; reflexivity).
    unfold matvec.
    rewrite <- (flat_single_column (fun row => dot row q) EV).
    f_equal; apply map_ext; intros row; simpl.
    rewrite column_reshape_col; reflexivity.
Qed.

Lemma matvec_length EV q : length (matvec EV q) = length EV.
Proof. unfold matvec; apply length_map. Qed.

End Cm05.

(** ** Input and output lengths *)

Section Shapes.
Context {R : Type} {S : Scalar R} {V : VectorLib R}.
Implicit Types (A B O : Matrix R) (l r x y u v : vec R).

Local Ltac use_ok H :=
  let w := fresh "w" in
  let E := fresh "E" in
  let Hl := fresh "Hl" in
  destruct H as (w & E & Hl); rewrite E; simpl.

Local Ltac use_raise H :=
  let e := fresh "e" in
  let E := fresh "E" in
  destruct H as (e & E); rewrite E; simpl; eauto.

(** On an input of length [cols], [mult] returns a vector of length
    [rows]. *)
Lemma mult_sized O :
  consistent O -> leaves sized_leaf O ->
  forall x, length x = cols O ->
  exists u, mult O x = Ok u /\ length u = rows O.
Proof.
  induction O as [L|A IH l|A IH r perm|A IH l r|A IHA B IHB|A IHA B IHB|d
                 |size ew EV mul M]; simpl consistent; simpl leaves;
    intros HC HL x Hx; simpl rows in *; simpl cols in *.
  - apply HL; assumption.
  - destruct HC as (HC & Hlen).
    rewrite mult_MultLeftMatrix.
    use_ok (IH HC HL x Hx).
    rewrite vmul_same by lia. eexists; split; [reflexivity|].
    rewrite hadamard_length; lia.
  - destruct HC as (HC & Hlen).
    rewrite mult_MultRightMatrix.
    replace (length x =? length r) with true by (symmetry; apply Nat.eqb_eq; lia).
    simpl. rewrite vmul_same by lia; simpl.
    apply IH; auto. rewrite hadamard_length; lia.
  - destruct HC as (HC & Hr & Hl).
    rewrite mult_MultLeftRightMatrix, vmul_same by lia; simpl.
    assert (Hxr : length (hadamard x r) = cols A) by (rewrite hadamard_length; lia).
    use_ok (IH HC HL _ Hxr).
    rewrite vmul_same by lia. eexists; split; [reflexivity|].
    rewrite hadamard_length; lia.
  - destruct HC as (HCA & HCB & Hrows & Hcols); destruct HL as (HLA & HLB).
    simpl mult.
    use_ok (IHA HCA HLA x Hx).
    assert (HxB : length x = cols B) by lia.
    use_ok (IHB HCB HLB x HxB).
    rewrite vadd_same by lia. eexists; split; [reflexivity|].
    rewrite vplus_length; lia.
  - destruct HC as (HCA & HCB & Hin); destruct HL as (HLA & HLB).
    simpl mult.
    use_ok (IHB HCB HLB x Hx).
    apply IHA; auto; lia.
  - simpl mult. rewrite vmul_same by lia. eexists; split; [reflexivity|].
    rewrite hadamard_length; lia.
  - destruct HC as (HEV & Hrows & Hmul).
    simpl mult. rewrite (Cm05_mult_eq EV mul x size) by assumption.
    eexists; split; [reflexivity|]. rewrite matvec_length; assumption.
Qed.

(** On an input of length [rows], [transMult] returns a vector of length
    [cols]. *)
Lemma transMult_sized O :
  consistent O -> leaves sized_leaf O ->
  forall y, length y = rows O ->
  exists v, transMult O y = Ok v /\ length v = cols O.
Proof.
  induction O as [L|A IH l|A IH r perm|A IH l r|A IHA B IHB|A IHA B IHB|d
                 |size ew EV mul M]; simpl consistent; simpl leaves;
    intros HC HL y Hy; simpl rows in *; simpl cols in *.
  - apply HL; assumption.
  - destruct HC as (HC & Hlen).
    rewrite transMult_MultLeftMatrix, vmul_same by lia; simpl.
    apply IH; auto. rewrite hadamard_length; lia.
  - destruct HC as (HC & Hlen).
    rewrite transMult_MultRightMatrix.
    use_ok (IH HC HL y Hy).
    rewrite vmul_same by lia. eexists; split; [reflexivity|].
    rewrite hadamard_length; lia.
  - destruct HC as (HC & Hr & Hl).
    rewrite transMult_MultLeftRightMatrix, vmul_same by lia; simpl.
    assert (Hyl : length (hadamard y l) = rows A) by (rewrite hadamard_length; lia).
    use_ok (IH HC HL _ Hyl).
    rewrite vmul_same by lia. eexists; split; [reflexivity|].
    rewrite hadamard_length; lia.
  - destruct HC as (HCA & HCB & Hrows & Hcols); destruct HL as (HLA & HLB).
    simpl transMult.
    use_ok (IHA HCA HLA y Hy).
    assert (HyB : length y = rows B) by lia.
    use_ok (IHB HCB HLB y HyB).
    rewrite vadd_same by lia. eexists; split; [reflexivity|].
    rewrite vplus_length; lia.
  - destruct HC as (HCA & HCB & Hin); destruct HL as (HLA & HLB).
    simpl transMult.
    use_ok (IHA HCA HLA y Hy).
    destruct (IHB HCB HLB w) as (v & Ev & Hv); [lia|].
    exists v; split; assumption.
  - simpl transMult. rewrite vmul_same by lia. eexists; split; [reflexivity|].
    rewrite hadamard_length; lia.
  - destruct HC as (HEV & Hrows & Hmul).
    simpl transMult. rewrite (Cm05_mult_eq EV mul y size) by assumption.
    eexists; split; [reflexivity|]. rewrite matvec_length; assumption.
Qed.

Lemma consistent_returns_sized O :
  consistent O -> leaves sized_leaf O -> returns_sized O.
Proof.
  intros HC HL; split.
  - intros x u Hx E.
    destruct (mult_sized O HC HL x Hx) as (u' & E' & Hu).
    rewrite E in E'; injection E' as <-; assumption.
  - intros y v Hy E.
    destruct (transMult_sized O HC HL y Hy) as (v' & E' & Hv).
    rewrite E in E'; injection E' as <-; assumption.
Qed.

(** With a strict vector library and leaves that check their input, an
    input of any other length is refused by [transMult]. *)
Lemma transMult_refused O :
  strict R -> consistent O -> leaves checking_leaf O ->
  forall y, length y <> rows O -> exists e, transMult O y = Raise e.
Proof.
  intros HS.
  induction O as [L|A IH l|A IH r perm|A IH l r|A IHA B IHB|A IHA B IHB|d
                 |size ew EV mul M]; simpl consistent; simpl leaves;
    intros HC HL y Hy; simpl rows in *.
  - apply HL; assumption.
  - destruct HC as (HC & Hlen).
    rewrite transMult_MultLeftMatrix.
    use_raise (vmul_refused y l HS ltac:(lia)).
  - destruct HC as (HC & Hlen).
    rewrite transMult_MultRightMatrix.
    use_raise (IH HC HL y Hy).
  - destruct HC as (HC & Hr & Hl).
    rewrite transMult_MultLeftRightMatrix.
    use_raise (vmul_refused y l HS ltac:(lia)).
  - destruct HC as (HCA & HCB & Hrows & Hcols); destruct HL as (HLA & HLB).
    simpl transMult. use_raise (IHA HCA HLA y Hy).
  - destruct HC as (HCA & HCB & Hin); destruct HL as (HLA & HLB).
    simpl transMult. use_raise (IHA HCA HLA y Hy).
  - simpl transMult. apply vmul_refused; assumption.
  - destruct HC as (HEV & Hrows & Hmul).
    simpl transMult. unfold Cm05_mult, np_dot_vm, shape0.
    replace (length y =? length EV) with false
      by (symmetry; apply Nat.eqb_neq; lia).
    simpl; eauto.
Qed.

(** The same for [mult], as long as no MultRightMatrix of the tree has a
    [perm] attribute: MultRightMatrix.mult then stops at [self.perm]. *)
Lemma mult_refused O :
  strict R -> consistent O -> leaves checking_leaf O -> no_perm O ->
  forall x, length x <> cols O -> exists e, mult O x = Raise e.
Proof.
  intros HS.
  induction O as [L|A IH l|A IH r perm|A IH l r|A IHA B IHB|A IHA B IHB|d
                 |size ew EV mul M]; simpl consistent; simpl leaves; simpl no_perm;
    intros HC HL HP x Hx; simpl cols in *.
  - apply HL; assumption.
  - destruct HC as (HC & Hlen).
    rewrite mult_MultLeftMatrix. use_raise (IH HC HL HP x Hx).
  - destruct HC as (HC & Hlen); destruct HP as (-> & HP).
    rewrite mult_MultRightMatrix.
    replace (length x =? length r) with false
      by (symmetry; apply Nat.eqb_neq; lia).
    simpl; eauto.
  - destruct HC as (HC & Hr & Hl).
    rewrite mult_MultLeftRightMatrix.
    use_raise (vmul_refused x r HS ltac:(lia)).
  - destruct HC as (HCA & HCB & Hrows & Hcols); destruct HL as (HLA & HLB);
      destruct HP as (HPA & HPB).
    simpl mult. use_raise (IHA HCA HLA HPA x Hx).
  - destruct HC as (HCA & HCB & Hin); destruct HL as (HLA & HLB);
      destruct HP as (HPA & HPB).
    simpl mult. use_raise (IHB HCB HLB HPB x Hx).
  - simpl mult. apply vmul_refused; assumption.
  - destruct HC as (HEV & Hrows & Hmul).
    simpl mult. unfold Cm05_mult, np_dot_vm, shape0.
    replace (length x =? length EV) with false
      by (symmetry; apply Nat.eqb_neq; lia).
    simpl; eauto.
Qed.

End Shapes.

(** ** Algebra of the dot product (exact arithmetic) *)

Section Algebra.
Context {R : Type} {S : Scalar R} {V : VectorLib R}.
Implicit Types (A B O : Matrix R) (l r x y u v a b : vec R).

Lemma hadamard_comm a b :
  (forall s t : R, smul s t = smul t s) -> hadamard a b = hadamard b a.
Proof.
  intros Hc; revert b; induction a as [|s a IH]; intros [|t b]; simpl;
    try reflexivity.
  unfold hadamard in *; simpl; rewrite (Hc s t), IH; reflexivity.
Qed.

Lemma dot_comm a b :
  (forall s t : R, smul s t = smul t s) -> dot a b = dot b a.
Proof.
  intros Hc; unfold dot; rewrite (hadamard_comm a b Hc); reflexivity.
Qed.

Context {L : CommSemiring R}.

Lemma sadd_swap (a b c d : R) :
  sadd (sadd a b) (sadd c d) = sadd (sadd a c) (sadd b d).
Proof.
  rewrite <- (sadd_assoc a b), (sadd_assoc b c d), (sadd_comm b c).
  rewrite <- (sadd_assoc c b d), (sadd_assoc a c); reflexivity.
Qed.

Lemma dot_nil_r a : dot a [] = s0.
Proof. destruct a; reflexivity. Qed.

(** A weight can be moved from one side of the dot product to the
    other. *)
Lemma dot_hadamard a l y : dot (hadamard a l) y = dot a (hadamard y l).
Proof.
  revert l y; induction a as [|s a IH]; intros l y; [reflexivity|].
  destruct l as [|k l]; [destruct y; reflexivity|].
  destruct y as [|t y]; [reflexivity|].
  unfold dot, hadamard in *; simpl.
  rewrite IH, (smul_comm t k), smul_assoc; reflexivity.
Qed.

Lemma dot_vplus_l u v y :
  length u = length v -> dot (vplus u v) y = sadd (dot u y) (dot v y).
Proof.
  revert v y; induction u as [|s u IH]; intros [|t v] y H; simpl in H;
    try discriminate.
  - unfold dot; simpl; rewrite sadd_0_l; reflexivity.
  - destruct y as [|c y].
    + unfold dot; simpl; rewrite sadd_0_l; reflexivity.
    + injection H as H.
      specialize (IH v y H).
      unfold dot, vplus, hadamard in *; simpl.
      rewrite IH, smul_add_distr_r, sadd_swap; reflexivity.
Qed.

Lemma dot_vplus_r x u v :
  length u = length v -> dot x (vplus u v) = sadd (dot x u) (dot x v).
Proof.
  intros H.
  rewrite (dot_comm x (vplus u v) smul_comm), (dot_comm x u smul_comm),
    (dot_comm x v smul_comm).
  apply dot_vplus_l; assumption.
Qed.

(** Adjoint consistency of composed operators, in exact arithmetic. For
    an operator built from leaves, scaling wrappers, sums, products and
    diagonal operators that satisfies the dimension invariants, over
    leaves that return vectors of the contract's length and are
    adjoint-consistent, and for x of length cols and y of length rows:
    mult(x) and transMult(y) return, and
    dot(O.mult(x), y) = dot(x, O.transMult(y)). *)
Theorem adjoint_consistency O :
  composite O -> consistent O -> leaves sized_leaf O -> leaves adjoint_leaf O ->
  forall x y, length x = cols O -> length y = rows O ->
  exists u v, mult O x = Ok u /\ transMult O y = Ok v /\ dot u y = dot x v.
Proof.
  induction O as [Lf|A IH l|A IH r perm|A IH l r|A IHA B IHB|A IHA B IHB|d
                 |size ew EV mul M]; simpl composite; simpl consistent;
    simpl leaves; intros HK HC HS HA x y Hx Hy; simpl rows in *; simpl cols in *.
  - destruct (proj1 HS x Hx) as (u & Eu & Hu).
    destruct (proj2 HS y Hy) as (v & Ev & Hv).
    exists u, v; repeat split; try assumption.
    apply (HA x y u v); assumption.
  - destruct HC as (HC & Hlen).
    assert (Hyl : length (hadamard y l) = rows A) by (rewrite hadamard_length; lia).
    destruct (IH HK HC HS HA x (hadamard y l) Hx Hyl) as (u & v & Eu & Ev & E).
    destruct (mult_sized A HC HS x Hx) as (u' & Eu' & Hu).
    rewrite Eu in Eu'; injection Eu' as <-.
    exists (hadamard u l), v.
    rewrite mult_MultLeftMatrix, transMult_MultLeftMatrix, Eu; simpl.
    rewrite !vmul_same by lia; simpl. rewrite Ev.
    repeat split. rewrite dot_hadamard; exact E.
  - destruct HC as (HC & Hlen).
    assert (Hxr : length (hadamard x r) = cols A) by (rewrite hadamard_length; lia).
    destruct (IH HK HC HS HA (hadamard x r) y Hxr Hy) as (u & v & Eu & Ev & E).
    destruct (transMult_sized A HC HS y Hy) as (v' & Ev' & Hv).
    rewrite Ev in Ev'; injection Ev' as <-.
    exists u, (hadamard v r).
    rewrite mult_MultRightMatrix, transMult_MultRightMatrix, Ev.
    replace (length x =? length r) with true by (symmetry; apply Nat.eqb_eq; lia).
    simpl. rewrite !vmul_same by lia; simpl. rewrite Eu.
    repeat split. rewrite <- dot_hadamard; exact E.
  - destruct HC as (HC & Hr & Hl).
    assert (Hxr : length (hadamard x r) = cols A) by (rewrite hadamard_length; lia).
    assert (Hyl : length (hadamard y l) = rows A) by (rewrite hadamard_length; lia).
    destruct (IH HK HC HS HA _ _ Hxr Hyl) as (u & v & Eu & Ev & E).
    destruct (mult_sized A HC HS _ Hxr) as (u' & Eu' & Hu).
    rewrite Eu in Eu'; injection Eu' as <-.
    destruct (transMult_sized A HC HS _ Hyl) as (v' & Ev' & Hv).
    rewrite Ev in Ev'; injection Ev' as <-.
    exists (hadamard u l), (hadamard v r).
    rewrite mult_MultLeftRightMatrix, transMult_MultLeftRightMatrix.
    rewrite (vmul_same x r), (vmul_same y l) by lia; simpl.
    rewrite Eu, Ev; simpl. rewrite !vmul_same by lia.
    repeat split. rewrite dot_hadamard, E, dot_hadamard; reflexivity.
  - destruct HK as (HKA & HKB); destruct HC as (HCA & HCB & Hrows & Hcols);
      destruct HS as (HSA & HSB); destruct HA as (HAA & HAB).
    assert (HxB : length x = cols B) by lia.
    assert (HyB : length y = rows B) by lia.
    destruct (IHA HKA HCA HSA HAA x y Hx Hy) as (ua & va & Eua & Eva & Ea).
    destruct (IHB HKB HCB HSB HAB x y HxB HyB) as (ub & vb & Eub & Evb & Eb).
    destruct (consistent_returns_sized A HCA HSA) as (HmA & HtA).
    destruct (consistent_returns_sized B HCB HSB) as (HmB & HtB).
    pose proof (HmA x ua Hx Eua). pose proof (HmB x ub HxB Eub).
    pose proof (HtA y va Hy Eva). pose proof (HtB y vb HyB Evb).
    exists (vplus ua ub), (vplus va vb).
    simpl mult; simpl transMult. rewrite Eua, Eub, Eva, Evb; simpl.
    rewrite !vadd_same by lia.
    repeat split.
    rewrite dot_vplus_l, dot_vplus_r, Ea, Eb by lia; reflexivity.
  - destruct HK as (HKA & HKB); destruct HC as (HCA & HCB & Hin);
      destruct HS as (HSA & HSB); destruct HA as (HAA & HAB).
    destruct (mult_sized B HCB HSB x Hx) as (w & Ew & Hw).
    destruct (transMult_sized A HCA HSA y Hy) as (z & Ez & Hz).
    assert (HwA : length w = cols A) by lia.
    assert (HzB : length z = rows B) by lia.
    destruct (IHA HKA HCA HSA HAA w y HwA Hy) as (u & z' & Eu & Ez' & Ea).
    rewrite Ez in Ez'; injection Ez' as <-.
    destruct (IHB HKB HCB HSB HAB x z Hx HzB) as (w' & v & Ew' & Ev & Eb).
    rewrite Ew in Ew'; injection Ew' as <-.
    exists u, v.
    simpl mult; simpl transMult. rewrite Ew, Ez; simpl.
    repeat split; try assumption.
    rewrite Ea; exact Eb.
  - exists (hadamard x d), (hadamard y d).
    simpl mult; simpl transMult. rewrite !vmul_same by lia.
    repeat split. apply dot_hadamard.
  - contradiction.
Qed.

End Algebra.

(** ** NDMatrix: what the constructor does once its names resolve *)

Module BlockFacts.
Import Block.

Lemma lookup_global_bound globals name :
  In name globals -> lookup_global globals name = Ok tt.
Proof.
  intros H; unfold lookup_global.
  replace (existsb (String.eqb name) globals) with true; [reflexivity|].
  symmetry; apply existsb_exists; exists name; split; [assumption|].
  apply String.eqb_refl.
Qed.

Lemma pg_unbound : lookup_global module_globals "pg" = Raise (NameError "pg").
Proof. reflexivity. Qed.

(** The loop registers one block per index and places it on the
    diagonal. *)
Lemma NDMatrix_loop_bound globals nrows ncols n :
  In "pg" globals ->
  forall k self, length (mats (block self)) = k ->
  exists self',
    NDMatrix_loop globals nrows ncols (seq k n) self = Ok self' /\
    mats (block self') = mats (block self) ++ repeat (resize {| m_rows := 0; m_cols := 0 |} nrows ncols) n /\
    entries (block self') = entries (block self) ++ map (placed nrows ncols) (seq k n) /\
    Ji self' = Ji self ++ repeat (resize {| m_rows := 0; m_cols := 0 |} nrows ncols) n.
Proof.
  intros Hpg; induction n as [|n IH]; intros k self Hk; simpl.
  - exists self; rewrite !app_nil_r; auto.
  - rewrite (lookup_global_bound _ _ Hpg); simpl.
    set (M := resize {| m_rows := 0; m_cols := 0 |} nrows ncols).
    match goal with
    | |- exists s, NDMatrix_loop _ _ _ _ ?st = _ /\ _ =>
        destruct (IH (S k) st) as (self' & E & Hm & He & HJ)
    end.
    { simpl; rewrite length_app; simpl; lia. }
    exists self'; split; [exact E|].
    simpl in Hm, He, HJ.
    rewrite Hm, He, HJ, Hk, <- !app_assoc; simpl; auto.
Qed.

Lemma fold_max_base (a : nat) (l : list nat) :
  fold_right Nat.max a l = Nat.max a (fold_right Nat.max 0 l).
Proof.
  induction l as [|b l IH]; simpl; [lia|]. rewrite IH; lia.
Qed.

Lemma max_diagonal (c n : nat) :
  fold_right Nat.max 0 (map (fun i => c * i + c) (seq 0 n)) = n * c.
Proof.
  induction n as [|n IH]; [reflexivity|].
  rewrite seq_S, map_app, fold_right_app; simpl.
  rewrite fold_max_base, IH; lia.
Qed.

Lemma extent_diagonal (dim : RMatrix -> nat) (M : RMatrix)
      (off : nat * nat * nat -> nat) (nrows ncols c n : nat) :
  dim M = c ->
  (forall i, off (placed nrows ncols i) = c * i) ->
  extent dim (repeat M n) off (map (placed nrows ncols) (seq 0 n)) = n * c.
Proof.
  intros Hdim Hoff; unfold extent.
  rewrite map_map, <- (max_diagonal c n).
  f_equal; apply map_ext_in; intros i Hi.
  apply in_seq in Hi.
  rewrite Hoff; simpl.
  rewrite nth_error_repeat by lia. rewrite Hdim; reflexivity.
Qed.

(** With [pg] bound, construction succeeds: [num] blocks of shape
    [(nrows, ncols)], block [i] at offset [(i * nrows, i * ncols)], overall
    shape [(num * nrows, num * ncols)]. *)
Lemma NDMatrix_init_bound globals num nrows ncols :
  In "pg" globals ->
  exists self,
    NDMatrix_init globals num nrows ncols = Ok (self, (num * nrows, num * ncols)) /\
    Ji self = repeat {| m_rows := nrows; m_cols := ncols |} num /\
    mats (block self) = Ji self /\
    entries (block self) = map (fun i => (i, i * nrows, i * ncols)) (seq 0 num) /\
    brows (block self) = num * nrows /\ bcols (block self) = num * ncols.
Proof.
  intros Hpg; unfold NDMatrix_init.
  destruct (NDMatrix_loop_bound globals nrows ncols num Hpg 0
              {| block := BlockMatrix_init; Ji := [] |} eq_refl)
    as (self & E & Hm & He & HJ).
  rewrite E; simpl in *.
  assert (Hr : extent m_rows (mats (block self)) (fun e => snd (fst e))
                 (entries (block self)) = num * nrows).
  { rewrite Hm, He. apply extent_diagonal; reflexivity. }
  assert (Hc : extent m_cols (mats (block self)) (fun e => snd e)
                 (entries (block self)) = num * ncols).
  { rewrite Hm, He. apply extent_diagonal; reflexivity. }
  eexists; split; [rewrite Hr, Hc; reflexivity|]; simpl.
  repeat split; try assumption.
  - rewrite Hm, HJ; reflexivity.
  - rewrite He; apply map_ext; intros i; unfold placed.
    rewrite (Nat.mul_comm nrows), (Nat.mul_comm ncols); reflexivity.
Qed.

End BlockFacts.

(** ** A concrete leaf: the identity matrix of the core library *)

Section Identity.
Context {R : Type} {S : Scalar R} {V : VectorLib R}.

Lemma identity_sized n : sized_leaf (identity_leaf (R:=R) n).
Proof.
  split; intros x Hx; exists x; simpl in *; rewrite Hx, Nat.eqb_refl; auto.
Qed.

Lemma identity_checking n : checking_leaf (identity_leaf (R:=R) n).
Proof.
  split; intros x Hx; exists (LibraryError 1); simpl in *;
    apply Nat.eqb_neq in Hx; rewrite Hx; reflexivity.
Qed.

Lemma identity_adjoint n : adjoint_leaf (identity_leaf (R:=R) n).
Proof.
  intros x y u v Hx Hy; simpl in *.
  rewrite Hx, Hy, Nat.eqb_refl.
  intros [= <-] [= <-]; reflexivity.
Qed.

End Identity.

(** ** Constructors that validate *)

Section Validation.
Context {R : Type} {S : Scalar R} {V : VectorLib R}.
Implicit Types (A B O : Matrix R) (l r x y w : vec R).

Lemma MultLeftMatrix_init_rejects A l :
  length l <> rows A ->
  MultLeftMatrix_init A l = Raise (Exception "Matrix columns do not fit vector length!").
Proof.
  intros H; unfold MultLeftMatrix_init.
  replace (rows A =? length l) with false by (symmetry; apply Nat.eqb_neq; lia).
  reflexivity.
Qed.

Lemma MultLeftRightMatrix_init_rejects A l r :
  length r <> cols A \/ length l <> rows A ->
  exists msg, MultLeftRightMatrix_init A l r = Raise (Exception msg).
Proof.
  intros H; unfold MultLeftRightMatrix_init.
  destruct (Nat.eqb_spec (cols A) (length r)); simpl; [|eauto].
  destruct (Nat.eqb_spec (rows A) (length l)); simpl; [|eauto].
  lia.
Qed.

Lemma Add2Matrix_init_rejects A B :
  rows A <> rows B \/ cols A <> cols B ->
  Add2Matrix_init A B = Raise AssertionError.
Proof.
  intros H; unfold Add2Matrix_init.
  destruct (Nat.eqb_spec (rows A) (rows B)); simpl; [|reflexivity].
  destruct (Nat.eqb_spec (cols A) (cols B)); simpl; [|reflexivity].
  lia.
Qed.

Lemma Mult2Matrix_init_rejects A B :
  cols A <> rows B -> Mult2Matrix_init A B = Raise AssertionError.
Proof.
  intros H; unfold Mult2Matrix_init.
  destruct (Nat.eqb_spec (cols A) (rows B)); simpl; [contradiction|reflexivity].
Qed.

Lemma Cm05Matrix_init_rejects eigh (M : ndarray R) verbose :
  shape0 M <> shape1 M ->
  Cm05Matrix_init eigh M verbose =
  Raise (Exception "Matrix must by square (and symmetric)!").
Proof.
  intros H; unfold Cm05Matrix_init.
  destruct (Nat.eqb_spec (shape0 M) (shape1 M)); simpl; [contradiction|reflexivity].
Qed.

(** An object the validating constructors return satisfies the invariant
    of its class. *)
Lemma MultLeftMatrix_init_consistent A l O :
  consistent A -> MultLeftMatrix_init A l = Ok O -> consistent O.
Proof.
  unfold MultLeftMatrix_init; intros HC.
  destruct (Nat.eqb_spec (rows A) (length l)); simpl; [|discriminate].
  intros [= <-]; simpl; auto.
Qed.

Lemma MultLeftRightMatrix_init_consistent A l r O :
  consistent A -> MultLeftRightMatrix_init A l r = Ok O -> consistent O.
Proof.
  unfold MultLeftRightMatrix_init; intros HC.
  destruct (Nat.eqb_spec (cols A) (length r)); simpl; [|discriminate].
  destruct (Nat.eqb_spec (rows A) (length l)); simpl; [|discriminate].
  intros [= <-]; simpl; auto.
Qed.

Lemma Add2Matrix_init_consistent A B O :
  consistent A -> consistent B -> Add2Matrix_init A B = Ok O -> consistent O.
Proof.
  unfold Add2Matrix_init; intros HA HB.
  destruct (Nat.eqb_spec (rows A) (rows B)); simpl; [|discriminate].
  destruct (Nat.eqb_spec (cols A) (cols B)); simpl; [|discriminate].
  intros [= <-]; simpl; auto.
Qed.

Lemma Mult2Matrix_init_consistent A B O :
  consistent A -> consistent B -> Mult2Matrix_init A B = Ok O -> consistent O.
Proof.
  unfold Mult2Matrix_init; intros HA HB.
  destruct (Nat.eqb_spec (cols A) (rows B)); simpl; [|discriminate].
  intros [= <-]; simpl; auto.
Qed.

End Validation.

(** * The claims *)

(** C1 — Scaling wrapper semantics. For a base operator [A] that returns
    vectors of the contract's length, weight vectors [l], [r] of the
    lengths of [A]'s rows and columns, and inputs [x], [y] of the right
    dimension: MultRightMatrix(A, r).mult(x) = A.mult(x ⊙ r) and
    .transMult(y) = A.transMult(y) ⊙ r; MultLeftMatrix(A, l).mult(x) =
    A.mult(x) ⊙ l and .transMult(y) = A.transMult(y ⊙ l);
    MultLeftRightMatrix(A, l, r).mult(x) = l ⊙ A.mult(x ⊙ r) and
    .transMult(y) = r ⊙ A.transMult(y ⊙ l). The scalar product is assumed
    commutative (the code multiplies by the weight on the right). *)
Theorem scaling_wrapper_semantics
  {R : Type} {S : Scalar R} {V : VectorLib R}
  (A : Matrix R) (l r x y : vec R) :
  (forall s t : R, smul s t = smul t s) ->
  returns_sized A ->
  length r = cols A -> length l = rows A ->
  length x = cols A -> length y = rows A ->
  (O <- MultRightMatrix_init A (Some r) ;; mult O x) = mult A (hadamard x r) /\
  (O <- MultRightMatrix_init A (Some r) ;; transMult O y) =
    fmap (fun v => hadamard v r) (transMult A y) /\
  (O <- MultLeftMatrix_init A l ;; mult O x) =
    fmap (fun u => hadamard u l) (mult A x) /\
  (O <- MultLeftMatrix_init A l ;; transMult O y) = transMult A (hadamard y l) /\
  (O <- MultLeftRightMatrix_init A l r ;; mult O x) =
    fmap (fun u => hadamard l u) (mult A (hadamard x r)) /\
  (O <- MultLeftRightMatrix_init A l r ;; transMult O y) =
    fmap (fun v => hadamard r v) (transMult A (hadamard y l)).
Proof.
  intros Hcomm [Hm Ht] Hr Hl Hx Hy.
  assert (Hxr : length (hadamard x r) = cols A) by (rewrite hadamard_length; lia).
  assert (Hyl : length (hadamard y l) = rows A) by (rewrite hadamard_length; lia).
  unfold MultLeftMatrix_init, MultLeftRightMatrix_init.
  replace (rows A =? length l) with true by (symmetry; apply Nat.eqb_eq; lia).
  replace (cols A =? length r) with true by (symmetry; apply Nat.eqb_eq; lia).
  cbn [bind MultRightMatrix_init negb].
  rewrite mult_MultRightMatrix, transMult_MultRightMatrix, mult_MultLeftMatrix,
    transMult_MultLeftMatrix, mult_MultLeftRightMatrix, transMult_MultLeftRightMatrix.
  replace (length x =? length r) with true by (symmetry; apply Nat.eqb_eq; lia).
  rewrite (vmul_same x r), (vmul_same y l) by lia; simpl.
  repeat split.
  - destruct (transMult A y) as [v|e] eqn:E; [|reflexivity]; simpl.
    apply vmul_same. rewrite (Ht y v Hy E); lia.
  - destruct (mult A x) as [u|e] eqn:E; [|reflexivity]; simpl.
    apply vmul_same. rewrite (Hm x u Hx E); lia.
  - destruct (mult A (hadamard x r)) as [u|e] eqn:E; [|reflexivity]; simpl.
    rewrite vmul_same by (rewrite (Hm _ u Hxr E); lia).
    unfold fmap; simpl. rewrite (hadamard_comm u l Hcomm); reflexivity.
  - destruct (transMult A (hadamard y l)) as [v|e] eqn:E; [|reflexivity]; simpl.
    rewrite vmul_same by (rewrite (Ht _ v Hyl E); lia).
    unfold fmap; simpl. rewrite (hadamard_comm v r Hcomm); reflexivity.
Qed.

Lemma scaling_wrapper_semantics_witness :
  (O <- MultLeftRightMatrix_init (Leaf (identity_leaf 2)) [5; 7]%Z [2; 1]%Z ;;
   mult (V:=strict_lib Z) O [1; 1]%Z) =
  fmap (fun u => hadamard [5; 7]%Z u)
       (mult (V:=strict_lib Z) (Leaf (identity_leaf 2)) (hadamard [1; 1]%Z [2; 1]%Z)).
Proof.
  apply (@scaling_wrapper_semantics Z Z_Scalar (strict_lib Z)
           (Leaf (identity_leaf 2)) [5; 7]%Z [2; 1]%Z [1; 1]%Z [3; 4]%Z).
  - exact Z.mul_comm.
  - apply consistent_returns_sized; [exact I | apply identity_sized].
  - reflexivity.
  - reflexivity.
  - reflexivity.
  - reflexivity.
Defined.

(** C6 — Product combinator. When A.cols() = B.rows(), Mult2Matrix(A, B)
    is constructed, has rows() = A.rows() and cols() = B.cols(), and for
    every x and y, mult(x) = A.mult(B.mult(x)) and transMult(y) =
    B.transMult(A.transMult(y)). *)
Theorem product_combinator
  {R : Type} {S : Scalar R} {V : VectorLib R} (A B : Matrix R) :
  cols A = rows B ->
  exists M, Mult2Matrix_init A B = Ok M /\
    rows M = rows A /\ cols M = cols B /\
    (forall x, mult M x = (bx <- mult B x ;; mult A bx)) /\
    (forall y, transMult M y = (ay <- transMult A y ;; transMult B ay)).
Proof.
  intros H. exists (Mult2Matrix A B). unfold Mult2Matrix_init.
  replace (cols A =? rows B) with true by (symmetry; apply Nat.eqb_eq; assumption).
  simpl; repeat split; reflexivity.
Qed.

Lemma product_combinator_witness :
  exists M, Mult2Matrix_init (DiagonalMatrix [2; 3]%Z) (Leaf (identity_leaf 2)) = Ok M /\
    rows M = 2 /\ cols M = 2 /\
    (forall x, mult (V:=strict_lib Z) M x =
       (bx <- mult (Leaf (identity_leaf 2)) x ;; mult (DiagonalMatrix [2; 3]%Z) bx)) /\
    (forall y, transMult (V:=strict_lib Z) M y =
       (ay <- transMult (DiagonalMatrix [2; 3]%Z) y ;; transMult (Leaf (identity_leaf 2)) ay)).
Proof.
  apply (@product_combinator Z Z_Scalar (strict_lib Z)
           (DiagonalMatrix [2; 3]%Z) (Leaf (identity_leaf 2))).
  reflexivity.
Defined.

(** C7 — Sum combinator. For operators A, B of equal rows and equal cols
    that return vectors of the contract's length, Add2Matrix(A, B) is
    constructed and has A's shape; for x of length cols and y of length
    rows, mult(x) = A.mult(x) + B.mult(x) and transMult(y) =
    A.transMult(y) + B.transMult(y). The sum of the diagonal operators
    with diagonals [1, 2] and [3, 4] applied to [1, 1] returns [4, 6]. *)
Theorem sum_combinator
  {R : Type} {S : Scalar R} {V : VectorLib R} (A B : Matrix R) (x y : vec R) :
  rows A = rows B -> cols A = cols B ->
  returns_sized A -> returns_sized B ->
  length x = cols A -> length y = rows A ->
  (exists M, Add2Matrix_init A B = Ok M /\
     rows M = rows A /\ cols M = cols A /\
     mult M x = lift2 vplus (mult A x) (mult B x) /\
     transMult M y = lift2 vplus (transMult A y) (transMult B y)) /\
  (forall W : VectorLib Z,
     (D <- Add2Matrix_init (DiagonalMatrix [1; 2]%Z) (DiagonalMatrix [3; 4]%Z) ;;
      mult (V:=W) D [1; 1]%Z) = Ok [4; 6]%Z).
Proof.
  intros Hrows Hcols [HmA HtA] [HmB HtB] Hx Hy.
  split; [|intros W; reflexivity].
  exists (Add2Matrix A B). unfold Add2Matrix_init.
  replace (rows A =? rows B) with true by (symmetry; apply Nat.eqb_eq; assumption).
  replace (cols A =? cols B) with true by (symmetry; apply Nat.eqb_eq; assumption).
  simpl; repeat split.
  - destruct (mult A x) as [a|e] eqn:Ea; [|reflexivity]; simpl.
    destruct (mult B x) as [b|e] eqn:Eb; [|reflexivity]; simpl.
    apply vadd_same.
    rewrite (HmA x a Hx Ea), (HmB x b) by (assumption || lia); assumption.
  - destruct (transMult A y) as [a|e] eqn:Ea; [|reflexivity]; simpl.
    destruct (transMult B y) as [b|e] eqn:Eb; [|reflexivity]; simpl.
    apply vadd_same.
    rewrite (HtA y a Hy Ea), (HtB y b) by (assumption || lia); assumption.
Qed.

Lemma sum_combinator_witness :
  exists M, Add2Matrix_init (DiagonalMatrix [1; 2]%Z) (Leaf (identity_leaf 2)) = Ok M /\
    rows M = 2 /\ cols M = 2 /\
    mult (V:=strict_lib Z) M [1; 1]%Z =
      lift2 vplus (mult (DiagonalMatrix [1; 2]%Z) [1; 1]%Z)
                  (mult (Leaf (identity_leaf 2)) [1; 1]%Z) /\
    transMult (V:=strict_lib Z) M [5; 6]%Z =
      lift2 vplus (transMult (DiagonalMatrix [1; 2]%Z) [5; 6]%Z)
                  (transMult (Leaf (identity_leaf 2)) [5; 6]%Z).
Proof.
  apply (@sum_combinator Z Z_Scalar (strict_lib Z)
           (DiagonalMatrix [1; 2]%Z) (Leaf (identity_leaf 2)) [1; 1]%Z [5; 6]%Z).
  - reflexivity.
  - reflexivity.
  - apply consistent_returns_sized; exact I.
  - apply consistent_returns_sized; [exact I | apply identity_sized].
  - reflexivity.
  - reflexivity.
Defined.

Module Binary64Facts.
Import Floats Binary64.


End Binary64Facts.



(** C3 — MultRightMatrix.__init__ stores the weight vector it is given
    without comparing its length with A.cols(): construction succeeds for
    every [A] and [w], as for the 2×2 diagonal operator and a weight
    vector of length 1. (MultLeftMatrix, MultLeftRightMatrix, Add2Matrix,
    Mult2Matrix and Cm05Matrix refuse inconsistent dimensions: section
    Validation.) *)
Theorem MultRightMatrix_init_unchecked :
  (forall (R : Type) (S : Scalar R) (A : Matrix R) (w : vec R),
     MultRightMatrix_init A (Some w) = Ok (MultRightMatrix A w None)) /\
  length [2%Z] <> cols (DiagonalMatrix [1; 1]%Z) /\
  MultRightMatrix_init (DiagonalMatrix [1; 1]%Z) (Some [2%Z]) =
    Ok (MultRightMatrix (DiagonalMatrix [1; 1]%Z) [2%Z] None).
Proof.
  split; [reflexivity|]. split; [discriminate|reflexivity].
Qed.

(** C10 — MultLeftMatrix's rebinding interface. The property [l] has no
    setter: [m.l = v] raises AttributeError. The name [r] is bound to a
    property with the getter of [l] and a setter that stores the left
    weight vector: after [m.r = v], m.mult(x) = A.mult(x) * v for every
    x. *)
Theorem MultLeftMatrix_rebinding_inverted
  {R : Type} {S : Scalar R} {V : VectorLib R} (A : Matrix R) (l v : vec R) :
  setattr (MultLeftMatrix A l) attr_l v = Raise (AttributeError "l") /\
  getattr (MultLeftMatrix A l) attr_r = Ok l /\
  exists m',
    setattr (MultLeftMatrix A l) attr_r v = Ok m' /\
    getattr m' attr_l = Ok v /\
    (forall x, mult m' x = (ax <- mult A x ;; vmul ax v)) /\
    (forall x u, length v = length u -> mult A x = Ok u ->
       mult m' x = Ok (hadamard u v)).
Proof.
  split; [reflexivity|]. split; [reflexivity|].
  exists (MultLeftMatrix A v).
  split; [reflexivity|]. split; [reflexivity|]. split; [reflexivity|].
  intros x u Hlen E.
  rewrite mult_MultLeftMatrix, E; simpl. apply vmul_same; lia.
Qed.

(** C4 (counterexample) — A replacement weight vector of the wrong length
    is accepted by the setter of each of the three wrappers: the
    assignment returns normally and the vector is stored. *)
Lemma rebinding_wrong_length_accepted :
  length [5%Z] <> cols (DiagonalMatrix [1; 1]%Z) /\
  length [5%Z] <> rows (DiagonalMatrix [1; 1]%Z) /\
  (m <- MultRightMatrix_init (DiagonalMatrix [1; 1]%Z) (Some [1; 1]%Z) ;;
   setattr m attr_r [5%Z]) = Ok (MultRightMatrix (DiagonalMatrix [1; 1]%Z) [5%Z] None) /\
  (m <- MultLeftMatrix_init (DiagonalMatrix [1; 1]%Z) [1; 1]%Z ;;
   setattr m attr_r [5%Z]) = Ok (MultLeftMatrix (DiagonalMatrix [1; 1]%Z) [5%Z]) /\
  (m <- MultLeftRightMatrix_init (DiagonalMatrix [1; 1]%Z) [1; 1]%Z [1; 1]%Z ;;
   setattr m attr_r [5%Z]) =
    Ok (MultLeftRightMatrix (DiagonalMatrix [1; 1]%Z) [1; 1]%Z [5%Z]).
Proof.
  repeat split; discriminate.
Qed.

(** C4 (amended) — Rebinding is not validated. Each of the three scaling
    wrappers has a weight-vector setter, and for every replacement
    vector [v], whatever its length, an assignment through a setter
    returns at once: no length is compared and nothing is raised at
    rebind time. *)
Theorem rebinding_unchecked
  {R : Type} (A : Matrix R) (l r v : vec R) (perm : option (list nat)) :
  Forall (fun O : Matrix R =>
            (exists n, has_setter O n) /\
            (forall n, has_setter O n -> exists O', setattr O n v = Ok O'))
         [ MultLeftMatrix A l; MultRightMatrix A r perm;
           MultLeftRightMatrix A l r ].
Proof.
  assert (H : forall O : Matrix R,
             class_body O <> [] ->
             (exists n, has_setter O n) /\
             (forall n, has_setter O n -> exists O', setattr O n v = Ok O')).
  { intros O HO; split.
    - exists attr_r.
      destruct O; try (exfalso; apply HO; reflexivity);
        do 3 eexists; repeat split; reflexivity.
    - intros n (ns & p & s & Ens & Ep & Es).
      unfold setattr. rewrite Ens; simpl. rewrite Ep, Es.
      eexists; reflexivity. }
  repeat constructor; apply H; discriminate.
Qed.

(** C5 (counterexample) — A MultRightMatrix over the 2×2 identity with
    weights [2, 1] has two columns. With the attribute [perm] set to
    [0, 0], mult on an input of length 1 returns a vector; without it,
    the call stops at [self.perm] with an AttributeError, not at a
    dimension check. *)
Lemma apply_check_counterexample :
  consistent (MultRightMatrix (Leaf (identity_leaf 2)) [2; 1]%Z (Some [0; 0])) /\
  cols (MultRightMatrix (Leaf (identity_leaf 2)) [2; 1]%Z (Some [0; 0])) = 2 /\
  mult (V:=strict_lib Z)
       (MultRightMatrix (Leaf (identity_leaf 2)) [2; 1]%Z (Some [0; 0])) [5%Z] =
    Ok [10; 5]%Z /\
  mult (V:=strict_lib Z)
       (MultRightMatrix (Leaf (identity_leaf 2)) [2; 1]%Z None) [5%Z] =
    Raise (AttributeError "perm").
Proof.
  repeat split.
Qed.

(** C5 (amended) — The operators of this layer do not check the length of
    their input themselves. For an operator [O] that satisfies the
    dimension invariants, over leaves that honour the contract, and with
    a vector library that refuses operands of different length: mult on
    an input of length cols returns a vector of length rows, transMult
    on an input of length rows returns a vector of length cols,
    transMult on an input of any other length fails, and so does mult
    when no MultRightMatrix of [O] carries a [perm] attribute.
    MultRightMatrix.mult on an input whose length differs from that of
    its weight vector evaluates A.mult(x[perm] * r). *)
Theorem apply_time_dimensions
  {R : Type} {S : Scalar R} {V : VectorLib R} (O : Matrix R) :
  strict R -> consistent O ->
  leaves sized_leaf O -> leaves checking_leaf O ->
  (forall x, length x = cols O ->
     exists u, mult O x = Ok u /\ length u = rows O) /\
  (forall y, length y = rows O ->
     exists v, transMult O y = Ok v /\ length v = cols O) /\
  (forall y, length y <> rows O -> exists e, transMult O y = Raise e) /\
  (no_perm O -> forall x, length x <> cols O -> exists e, mult O x = Raise e) /\
  (forall (A : Matrix R) (r x : vec R) (perm : option (list nat)),
     length x <> length r ->
     mult (MultRightMatrix A r perm) x =
       (p <- getattr_perm perm ;; xp <- take x p ;; xr <- vmul xp r ;; mult A xr)).
Proof.
  intros HS HC HL HK.
  split; [apply mult_sized; assumption|].
  split; [apply transMult_sized; assumption|].
  split; [apply transMult_refused; assumption|].
  split; [intros HP; apply mult_refused; assumption|].
  intros A r x perm Hx.
  rewrite mult_MultRightMatrix.
  replace (length x =? length r) with false by (symmetry; apply Nat.eqb_neq; lia).
  reflexivity.
Qed.

Lemma sample_operator_consistent : consistent sample_operator.
Proof. simpl; repeat split. Qed.

Lemma sample_operator_sized : leaves sized_leaf sample_operator.
Proof. simpl; repeat split; apply identity_sized. Qed.

Lemma sample_operator_checking : leaves checking_leaf sample_operator.
Proof. simpl; repeat split; apply identity_checking. Qed.

Lemma apply_time_dimensions_witness :
  (forall x, length x = cols sample_operator ->
     exists u, mult sample_operator x = Ok u /\ length u = rows sample_operator) /\
  (forall y, length y = rows sample_operator ->
     exists v, transMult sample_operator y = Ok v /\ length v = cols sample_operator) /\
  (forall y, length y <> rows sample_operator ->
     exists e, transMult sample_operator y = Raise e) /\
  (no_perm sample_operator -> forall x, length x <> cols sample_operator ->
     exists e, mult sample_operator x = Raise e) /\
  (forall (A : Matrix Z) (r x : vec Z) (perm : option (list nat)),
     length x <> length r ->
     mult (MultRightMatrix A r perm) x =
       (p <- getattr_perm perm ;; xp <- take x p ;; xr <- vmul xp r ;; mult A xr)).
Proof.
  apply (@apply_time_dimensions Z Z_Scalar (strict_lib Z) sample_operator).
  - apply strict_lib_strict.
  - exact sample_operator_consistent.
  - exact sample_operator_sized.
  - exact sample_operator_checking.
Defined.

Example sample_operator_run :
  mult sample_operator [1; 1]%Z = Ok [108; 100]%Z /\
  transMult sample_operator [1; 1]%Z = Ok [108; 100]%Z.
Proof. split; reflexivity. Qed.

(** C8 — Adjoint consistency breaks on a MultRightMatrix built with a
    weight vector of the wrong length, which the constructor accepts
    (the defect of C3): over the 2×2 diagonal operator with weights of
    length 1, mult on an input of length cols() stops at [self.perm].
    On operators that satisfy the dimension invariants the property
    holds in exact arithmetic (section Algebra). *)
Theorem adjoint_breaks_on_unchecked_right :
  exists O : Matrix Z,
    MultRightMatrix_init (DiagonalMatrix [1; 1]%Z) (Some [2%Z]) = Ok O /\
    composite O /\ leaves adjoint_leaf O /\ cols O = 2 /\ rows O = 2 /\
    ~ consistent O /\
    forall W : VectorLib Z,
      mult (V:=W) O [1; 1]%Z = Raise (AttributeError "perm").
Proof.
  exists (MultRightMatrix (DiagonalMatrix [1; 1]%Z) [2%Z] None).
  repeat split.
  intros [_ H]; discriminate.
Qed.

(** C9 — NDMatrix.__init__ evaluates [pg.Matrix()] in the first pass of
    its loop; the module binds no name [pg], so for every num >= 1 the
    construction raises NameError. (With [pg] bound it would succeed with
    the shape the claim states: module BlockFacts.) *)
Theorem NDMatrix_init_NameError (n nrows ncols : nat) :
  Block.NDMatrix_init Block.module_globals (S n) nrows ncols =
  Raise (NameError "pg").
Proof.
  unfold Block.NDMatrix_init.
  change (seq 0 (S n)) with (0 :: seq 1 n).
  cbn [Block.NDMatrix_loop].
  rewrite BlockFacts.pg_unbound.
  reflexivity.
Qed.

(** ** Further properties *)

Lemma adjoint_consistency_witness :
  exists u v,
    mult sample_operator [1; 2]%Z = Ok u /\
    transMult sample_operator [3; 4]%Z = Ok v /\
    dot u [3; 4]%Z = dot [1; 2]%Z v.
Proof.
  apply (@adjoint_consistency Z Z_Scalar (strict_lib Z) Z_CommSemiring
           sample_operator).
  - simpl; repeat split.
  - exact sample_operator_consistent.
  - exact sample_operator_sized.
  - simpl; repeat split; apply identity_adjoint.
  - reflexivity.
  - reflexivity.
Defined.

(** The constructors of MultLeftMatrix, MultLeftRightMatrix, Add2Matrix,
    Mult2Matrix and Cm05Matrix raise when the dimensions they are given
    are inconsistent. *)
Theorem validating_constructors {R : Type} {S : Scalar R} :
  (forall (A : Matrix R) (l : vec R), length l <> rows A ->
     exists e, MultLeftMatrix_init A l = Raise e) /\
  (forall (A : Matrix R) (l r : vec R),
     length r <> cols A \/ length l <> rows A ->
     exists e, MultLeftRightMatrix_init A l r = Raise e) /\
  (forall A B : Matrix R, rows A <> rows B \/ cols A <> cols B ->
     exists e, Add2Matrix_init A B = Raise e) /\
  (forall A B : Matrix R, cols A <> rows B ->
     exists e, Mult2Matrix_init A B = Raise e) /\
  (forall eigh (M : ndarray R) verbose, shape0 M <> shape1 M ->
     exists e, Cm05Matrix_init eigh M verbose = Raise e).
Proof.
  repeat split.
  - intros A l H; eexists; apply MultLeftMatrix_init_rejects; exact H.
  - intros A l r H.
    destruct (MultLeftRightMatrix_init_rejects A l r H) as (msg & E); eauto.
  - intros A B H; eexists; apply Add2Matrix_init_rejects; exact H.
  - intros A B H; eexists; apply Mult2Matrix_init_rejects; exact H.
  - intros eigh M verbose H; eexists; apply Cm05Matrix_init_rejects; exact H.
Qed.

(** ** How the operators compose *)

Section Composition.
Context {R : Type} {S : Scalar R} {V : VectorLib R}.
Implicit Types (A B C O : Matrix R) (l r x y u v a b d : vec R).
Implicit Types (perm : option (list nat)).

Lemma bind_assoc {X Y W : Type} (m : result X) (f : X -> result Y)
      (g : Y -> result W) :
  bind (bind m f) g = bind m (fun w => bind (f w) g).
Proof. destruct m; reflexivity. Qed.

Lemma hadamard_ones_r x n :
  (forall s : R, smul s s1 = s) -> length x = n ->
  hadamard x (repeat s1 n) = x.
Proof.
  intros H1; revert n; induction x as [|s x IH]; intros [|n] Hn;
    simpl in Hn; try discriminate; [reflexivity|].
  unfold hadamard in *; simpl. rewrite H1, IH by lia. reflexivity.
Qed.

Lemma vplus_comm a b :
  (forall s t : R, sadd s t = sadd t s) -> vplus a b = vplus b a.
Proof.
  intros Hc; revert b; induction a as [|s a IH]; intros [|t b]; simpl;
    try reflexivity.
  unfold vplus in *; simpl; rewrite (Hc s t), IH; reflexivity.
Qed.

(** X3 — The two-sided wrapper is the composition of the one-sided
    wrappers, in either order: for x of the length of the right weight
    vector, MultLeftRightMatrix(A, l, r).mult(x) is
    MultLeftMatrix(MultRightMatrix(A, r), l).mult(x) and
    MultRightMatrix(MultLeftMatrix(A, l), r).mult(x), errors included;
    the same for transMult on every y. *)
Theorem two_sided_is_composition A l r perm x y :
  length x = length r ->
  mult (MultLeftRightMatrix A l r) x =
    mult (MultLeftMatrix (MultRightMatrix A r perm) l) x /\
  mult (MultLeftRightMatrix A l r) x =
    mult (MultRightMatrix (MultLeftMatrix A l) r perm) x /\
  transMult (MultLeftRightMatrix A l r) y =
    transMult (MultLeftMatrix (MultRightMatrix A r perm) l) y /\
  transMult (MultLeftRightMatrix A l r) y =
    transMult (MultRightMatrix (MultLeftMatrix A l) r perm) y.
Proof.
  intros Hx.
  assert (E : negb (length x =? length r) = false)
    by (rewrite Hx, Nat.eqb_refl; reflexivity).
  split; [|split; [|split]].
  - rewrite mult_MultLeftRightMatrix, mult_MultLeftMatrix, mult_MultRightMatrix, E.
    rewrite bind_assoc; reflexivity.
  - rewrite mult_MultLeftRightMatrix, mult_MultRightMatrix, E.
    destruct (vmul x r) as [xr|e]; reflexivity.
  - rewrite transMult_MultLeftRightMatrix, transMult_MultLeftMatrix.
    destruct (vmul y l) as [yl|e]; reflexivity.
  - rewrite transMult_MultLeftRightMatrix, transMult_MultRightMatrix,
      transMult_MultLeftMatrix.
    rewrite bind_assoc; reflexivity.
Qed.

(** X4 — A MultRightMatrix built without a weight vector gets the vector
    of ones of length A.cols(): it satisfies the dimension invariant, has
    the shape of A, and where multiplying by one changes nothing it acts
    as A does. *)
Theorem default_right_weight_is_neutral A x y :
  (forall s : R, smul s s1 = s) ->
  returns_sized A ->
  length x = cols A -> length y = rows A ->
  exists O,
    MultRightMatrix_init A None = Ok O /\
    (consistent A -> consistent O) /\
    rows O = rows A /\ cols O = cols A /\
    mult O x = mult A x /\
    transMult O y = transMult A y.
Proof.
  intros H1 [_ Ht] Hx Hy.
  exists (MultRightMatrix A (repeat s1 (cols A)) None).
  split; [reflexivity|].
  split; [intros HC; simpl; split; [exact HC | apply repeat_length]|].
  split; [reflexivity|]. split; [reflexivity|].
  split.
  - rewrite mult_MultRightMatrix, repeat_length, Hx, Nat.eqb_refl; simpl.
    rewrite vmul_same by (rewrite repeat_length; lia); simpl.
    rewrite hadamard_ones_r by assumption; reflexivity.
  - rewrite transMult_MultRightMatrix.
    destruct (transMult A y) as [v|e] eqn:E; [|reflexivity]; simpl.
    pose proof (Ht y v Hy E) as Hv.
    rewrite vmul_same by (rewrite repeat_length; lia).
    rewrite hadamard_ones_r by assumption; reflexivity.
Qed.

(** X5 — The product is associative: for A.cols() = B.rows() and
    B.cols() = C.rows(), Mult2Matrix(Mult2Matrix(A, B), C) and
    Mult2Matrix(A, Mult2Matrix(B, C)) are both constructed, have one
    shape, and mult and transMult return the same on every input, errors
    included. *)
Theorem product_is_associative A B C :
  cols A = rows B -> cols B = rows C ->
  exists AB BC P Q,
    Mult2Matrix_init A B = Ok AB /\ Mult2Matrix_init B C = Ok BC /\
    Mult2Matrix_init AB C = Ok P /\ Mult2Matrix_init A BC = Ok Q /\
    rows P = rows Q /\ cols P = cols Q /\
    (forall x, mult P x = mult Q x) /\
    (forall y, transMult P y = transMult Q y).
Proof.
  intros HAB HBC.
  exists (Mult2Matrix A B), (Mult2Matrix B C),
    (Mult2Matrix (Mult2Matrix A B) C), (Mult2Matrix A (Mult2Matrix B C)).
  unfold Mult2Matrix_init; simpl.
  rewrite HAB, HBC, !Nat.eqb_refl; simpl.
  repeat split.
  - intros x. destruct (mult C x); reflexivity.
  - intros y. rewrite bind_assoc; reflexivity.
Qed.

(** X6 — The sum is commutative when scalar addition is: for operands of
    one shape that satisfy the dimension invariants, over leaves that
    honour the contract, Add2Matrix(A, B) and Add2Matrix(B, A) return the
    same on inputs of the right length. *)
Theorem sum_is_commutative A B x y :
  (forall s t : R, sadd s t = sadd t s) ->
  rows A = rows B -> cols A = cols B ->
  consistent A -> consistent B ->
  leaves sized_leaf A -> leaves sized_leaf B ->
  length x = cols A -> length y = rows A ->
  mult (Add2Matrix A B) x = mult (Add2Matrix B A) x /\
  transMult (Add2Matrix A B) y = transMult (Add2Matrix B A) y.
Proof.
  intros Hc Hrows Hcols HCA HCB HLA HLB Hx Hy.
  destruct (mult_sized A HCA HLA x Hx) as (a & Ea & Ha).
  destruct (mult_sized B HCB HLB x ltac:(lia)) as (b & Eb & Hb).
  destruct (transMult_sized A HCA HLA y Hy) as (a' & Ea' & Ha').
  destruct (transMult_sized B HCB HLB y ltac:(lia)) as (b' & Eb' & Hb').
  simpl. rewrite Ea, Eb, Ea', Eb'; simpl.
  rewrite !vadd_same by lia.
  rewrite (vplus_comm a b Hc), (vplus_comm a' b' Hc); split; reflexivity.
Qed.

End Composition.

(** ** Diagonal operators *)

Section Diagonal.
Context {R : Type} {S : Scalar R} {V : VectorLib R} {L : CommSemiring R}.
Implicit Types (x y a b d : vec R).

Lemma smul_add_distr_l (s a b : R) :
  smul s (sadd a b) = sadd (smul s a) (smul s b).
Proof.
  rewrite (smul_comm s), smul_add_distr_r, (smul_comm a), (smul_comm b).
  reflexivity.
Qed.

Lemma hadamard_vplus_distr x a b :
  hadamard x (vplus a b) = vplus (hadamard x a) (hadamard x b).
Proof.
  revert a b; induction x as [|s x IH]; intros a b; [reflexivity|].
  destruct a as [|t a]; [reflexivity|].
  destruct b as [|t' b]; [reflexivity|].
  unfold hadamard, vplus in *; simpl.
  rewrite smul_add_distr_l, IH; reflexivity.
Qed.

Lemma hadamard_assoc x a b :
  hadamard (hadamard x a) b = hadamard x (hadamard a b).
Proof.
  revert a b; induction x as [|s x IH]; intros a b; [reflexivity|].
  destruct a as [|t a]; [reflexivity|].
  destruct b as [|t' b]; [reflexivity|].
  unfold hadamard in *; simpl.
  rewrite IH, smul_assoc; reflexivity.
Qed.

(** X7 — Diagonal operators are closed under sum and product, in exact
    arithmetic: for diagonals d1, d2 of one length and an input of that
    length, the sum of DiagonalMatrix(d1) and DiagonalMatrix(d2) acts as
    DiagonalMatrix(d1 + d2) and their product as DiagonalMatrix(d1 ⊙ d2),
    for mult and for transMult. *)
Theorem diagonal_sum_and_product d1 d2 x :
  length d1 = length d2 -> length x = length d1 ->
  mult (Add2Matrix (DiagonalMatrix d1) (DiagonalMatrix d2)) x =
    mult (DiagonalMatrix (vplus d1 d2)) x /\
  transMult (Add2Matrix (DiagonalMatrix d1) (DiagonalMatrix d2)) x =
    transMult (DiagonalMatrix (vplus d1 d2)) x /\
  mult (Mult2Matrix (DiagonalMatrix d1) (DiagonalMatrix d2)) x =
    mult (DiagonalMatrix (hadamard d1 d2)) x /\
  transMult (Mult2Matrix (DiagonalMatrix d1) (DiagonalMatrix d2)) x =
    transMult (DiagonalMatrix (hadamard d1 d2)) x.
Proof.
  intros Hd Hx.
  assert (Hsum : vadd (hadamard x d1) (hadamard x d2) =
                 vmul x (vplus d1 d2)).
  { rewrite vadd_same by (rewrite !hadamard_length; lia).
    rewrite vmul_same by (rewrite vplus_length; lia).
    rewrite hadamard_vplus_distr; reflexivity. }
  split; [|split; [|split]]; simpl.
  - rewrite !vmul_same by lia; simpl. exact Hsum.
  - rewrite !vmul_same by lia; simpl. exact Hsum.
  - rewrite (vmul_same x d2) by lia; simpl.
    rewrite vmul_same by (rewrite hadamard_length; lia).
    rewrite vmul_same by (rewrite hadamard_length; lia).
    rewrite hadamard_assoc, (hadamard_comm d2 d1 smul_comm); reflexivity.
  - rewrite (vmul_same x d1) by lia; simpl.
    rewrite vmul_same by (rewrite hadamard_length; lia).
    rewrite vmul_same by (rewrite hadamard_length; lia).
    rewrite hadamard_assoc; reflexivity.
Qed.

End Diagonal.

(** ** What construction guarantees *)

Section Construction.
Context {R : Type} {S : Scalar R} {V : VectorLib R}.
Implicit Types (A B O : Matrix R) (l r x y v : vec R).

Lemma Cm05Matrix_init_consistent eigh (M : ndarray R) verbose O :
  eigh_sized eigh M -> Cm05Matrix_init eigh M verbose = Ok O -> consistent O.
Proof.
  unfold Cm05Matrix_init; intros Hsz.
  destruct (Nat.eqb_spec (shape0 M) (shape1 M)); simpl; [|discriminate].
  destruct (eigh M) as [[ew EV]|err] eqn:E; simpl; [|discriminate].
  destruct (Hsz ew EV E) as (Hew & HEV & Hrows).
  intros [= <-]; simpl. rewrite length_map; auto.
Qed.

Lemma built_consistent O : built O -> consistent O /\ no_perm O.
Proof.
  induction 1 as [Lf|d O E|A l O HA [IHc IHp] E|A O HA [IHc IHp] E
                 |A l r O HA [IHc IHp] E
                 |A B O HA [IHAc IHAp] HB [IHBc IHBp] E
                 |A B O HA [IHAc IHAp] HB [IHBc IHBp] E
                 |eigh M verbose O Hsz E].
  - split; exact I.
  - injection E as <-; split; exact I.
  - split; [exact (MultLeftMatrix_init_consistent A l O IHc E)|].
    unfold MultLeftMatrix_init in E.
    destruct (negb (rows A =? length l)); [discriminate|].
    injection E as <-; exact IHp.
  - injection E as <-; simpl. rewrite repeat_length; auto.
  - split; [exact (MultLeftRightMatrix_init_consistent A l r O IHc E)|].
    unfold MultLeftRightMatrix_init in E.
    destruct (negb (cols A =? length r)); [discriminate|].
    destruct (negb (rows A =? length l)); [discriminate|].
    injection E as <-; exact IHp.
  - split; [exact (Add2Matrix_init_consistent A B O IHAc IHBc E)|].
    unfold Add2Matrix_init in E.
    destruct (negb (rows A =? rows B)); [discriminate|].
    destruct (negb (cols A =? cols B)); [discriminate|].
    injection E as <-; simpl; auto.
  - split; [exact (Mult2Matrix_init_consistent A B O IHAc IHBc E)|].
    unfold Mult2Matrix_init in E.
    destruct (negb (cols A =? rows B)); [discriminate|].
    injection E as <-; simpl; auto.
  - split; [exact (Cm05Matrix_init_consistent eigh M verbose O Hsz E)|].
    unfold Cm05Matrix_init in E.
    destruct (negb (shape0 M =? shape1 M)); [discriminate|].
    destruct (eigh M) as [[ew EV]|err]; simpl in E; [|discriminate].
    injection E as <-; exact I.
Qed.

(** X8 — Construction establishes the dimension invariants. Every
    operator obtained from leaves by the constructors of DiagonalMatrix,
    MultLeftMatrix, MultLeftRightMatrix, Add2Matrix, Mult2Matrix,
    Cm05Matrix (with an [eigh] that returns arrays of the size of its
    argument) and MultRightMatrix with its default weight vector
    satisfies them and carries no [perm]; over leaves that honour the
    contract, mult and transMult then return vectors of the right length
    on inputs of the right length. *)
Theorem built_operators_apply O :
  built O -> leaves sized_leaf O ->
  consistent O /\ no_perm O /\
  (forall x, length x = cols O ->
     exists u, mult O x = Ok u /\ length u = rows O) /\
  (forall y, length y = rows O ->
     exists v, transMult O y = Ok v /\ length v = cols O).
Proof.
  intros HB HL.
  destruct (built_consistent O HB) as [HC HP].
  split; [exact HC|]. split; [exact HP|].
  split; [apply mult_sized | apply transMult_sized]; assumption.
Qed.

(** X9 — Rebinding through [l] or [r] never changes the shape of an
    object or the class it belongs to; when the assignment is accepted, a
    later read of the same name that answers gives the assigned vector,
    and [r] of a scaling wrapper does answer. The left weight vector of a
    MultLeftRightMatrix is out of reach of both names. *)
Theorem rebinding_frame O n v O' :
  setattr O n v = Ok O' ->
  rows O' = rows O /\ cols O' = cols O /\
  class_body O' = class_body O /\
  (forall w, getattr O' n = Ok w -> w = v) /\
  (n = attr_r -> class_body O <> [] -> getattr O' n = Ok v) /\
  (forall A l r, O = MultLeftRightMatrix A l r ->
     exists r', O' = MultLeftRightMatrix A l r').
Proof.
  intros E.
  destruct O as [Lf|A l|A r perm|A l r|A B|A B|d|size ew EV mul M];
    destruct n; cbv in E; try discriminate E; injection E as <-;
    (split; [reflexivity|]; split; [reflexivity|]; split; [reflexivity|];
     split; [intros w Hw; cbv in Hw; congruence|];
     split;
     [ intros Hn Hne;
       first [ discriminate Hn | reflexivity | exfalso; apply Hne; reflexivity ]
     | intros A0 l0 r0 HO;
       first [ discriminate HO
             | injection HO as <- <- <-; eexists; reflexivity ] ]).
Qed.

(** X10 — A weight vector of the wrong length, once rebound, makes the
    next apply fail. With a vector library that refuses operands of
    different length, a base operator that returns vectors of the
    contract's length and a vector [v] whose length is neither A.rows()
    nor A.cols(): after [m.r = v], mult on an input of length cols and
    transMult on an input of length rows raise, for each of the three
    wrappers (a MultRightMatrix without [perm] raises AttributeError in
    mult). *)
Theorem wrong_rebinding_fails_at_apply A l r v x y :
  strict R -> returns_sized A ->
  length l = rows A -> length r = cols A ->
  length v <> rows A -> length v <> cols A ->
  length x = cols A -> length y = rows A ->
  (exists m, setattr (MultLeftMatrix A l) attr_r v = Ok m /\
     (exists e, mult m x = Raise e) /\ (exists e, transMult m y = Raise e)) /\
  (exists m, setattr (MultRightMatrix A r None) attr_r v = Ok m /\
     mult m x = Raise (AttributeError "perm") /\
     (exists e, transMult m y = Raise e)) /\
  (exists m, setattr (MultLeftRightMatrix A l r) attr_r v = Ok m /\
     (exists e, mult m x = Raise e) /\ (exists e, transMult m y = Raise e)).
Proof.
  intros HS [Hm Ht] Hl Hr Hvr Hvc Hx Hy.
  assert (Hyl : length (hadamard y l) = rows A) by (rewrite hadamard_length; lia).
  split; [|split].
  - exists (MultLeftMatrix A v). split; [reflexivity|]. split.
    + rewrite mult_MultLeftMatrix.
      destruct (mult A x) as [u|e] eqn:E; simpl; [|eauto].
      apply vmul_refused; [exact HS|]. rewrite (Hm x u Hx E); lia.
    + rewrite transMult_MultLeftMatrix.
      destruct (vmul_refused y v HS ltac:(lia)) as (e & E).
      rewrite E; simpl; eauto.
  - exists (MultRightMatrix A v None). split; [reflexivity|]. split.
    + rewrite mult_MultRightMatrix.
      replace (length x =? length v) with false
        by (symmetry; apply Nat.eqb_neq; lia).
      reflexivity.
    + rewrite transMult_MultRightMatrix.
      destruct (transMult A y) as [u|e] eqn:E; simpl; [|eauto].
      apply vmul_refused; [exact HS|]. rewrite (Ht y u Hy E); lia.
  - exists (MultLeftRightMatrix A l v). split; [reflexivity|]. split.
    + rewrite mult_MultLeftRightMatrix.
      destruct (vmul_refused x v HS ltac:(lia)) as (e & E).
      rewrite E; simpl; eauto.
    + rewrite transMult_MultLeftRightMatrix, vmul_same by lia; simpl.
      destruct (transMult A (hadamard y l)) as [u|e] eqn:E; simpl; [|eauto].
      apply vmul_refused; [exact HS|]. rewrite (Ht _ u Hyl E); lia.
Qed.

End Construction.

(** ** NDMatrix and the patched addMatrix *)

Module BlockUse.
Import Block BlockCalls.

(** X11 — In the module as it stands, NDMatrix(num, nrows, ncols) is
    constructed exactly when the integer num is zero or negative: the
    loop body, which needs the unbound name [pg], is then never entered,
    and the object holds no block, whatever names are bound. *)
Theorem NDMatrix_constructed_iff_no_pass (num : Z) (nrows ncols : nat) :
  ((exists r, NDMatrix_call module_globals num nrows ncols = Ok r) <->
   (num <= 0)%Z) /\
  (forall globals, (num <= 0)%Z ->
     NDMatrix_call globals num nrows ncols =
     Ok ({| block := BlockMatrix_init; Ji := [] |}, (0, 0))).
Proof.
  split.
  - split.
    + intros [r E]. unfold NDMatrix_call, NDMatrix_init in E.
      destruct (Z.to_nat num) as [|n] eqn:En; [lia|].
      change (seq 0 (S n)) with (0 :: seq 1 n) in E.
      cbn [NDMatrix_loop] in E.
      rewrite BlockFacts.pg_unbound in E. discriminate E.
    + intros H. unfold NDMatrix_call.
      replace (Z.to_nat num) with 0 by lia. eexists; reflexivity.
  - intros globals H. unfold NDMatrix_call.
    replace (Z.to_nat num) with 0 by lia. reflexivity.
Qed.

Lemma run_call_held (self : BlockMatrix) (c : call) :
  held self = mats self -> held (run_call self c) = mats (run_call self c).
Proof.
  intros H; destruct c as [M|n r c|]; simpl; [|exact H|exact H].
  unfold held in *; simpl. rewrite <- H; reflexivity.
Qed.

(** X12 — The patched addMatrix keeps every registered matrix alive:
    after any sequence of addMatrix, addMatrixEntry and recalcMatrixSize
    calls on a fresh block matrix, [__mats__] holds exactly the
    registered matrices, in the order of registration, and each
    addMatrix returned the position of its matrix in that list. *)
Theorem registered_matrices_are_held (cs : list call) (M : RMatrix) :
  held (run_calls cs BlockMatrix_init) = mats (run_calls cs BlockMatrix_init) /\
  nth_error (held (fst (addMatrix (run_calls cs BlockMatrix_init) M)))
            (snd (addMatrix (run_calls cs BlockMatrix_init) M)) = Some M.
Proof.
  assert (H : forall self, held self = mats self ->
                held (run_calls cs self) = mats (run_calls cs self)).
  { induction cs as [|c cs IH]; intros self Hs; [exact Hs|].
    simpl. apply IH, run_call_held, Hs. }
  specialize (H BlockMatrix_init eq_refl).
  split; [exact H|].
  unfold held in *; simpl.
  change (match keep (run_calls cs BlockMatrix_init) with
          | Some ms => ms
          | None => []
          end) with (held (run_calls cs BlockMatrix_init)).
  unfold held; rewrite H.
  rewrite nth_error_app2 by lia. rewrite Nat.sub_diag; reflexivity.
Qed.

End BlockUse.

(** ** The inverse-square-root operator is symmetric *)

Section Symmetric.
Context {R : Type} {S : Scalar R} {V : VectorLib R} {L : CommSemiring R}.
Hypothesis smul_0_l : forall a : R, smul s0 a = s0.
Implicit Types (x y q row : vec R) (M EV : ndarray R).

Lemma map_nth_seq row :
  map (fun j => nth j row s0) (seq 0 (length row)) = row.
Proof.
  induction row as [|a row IH]; [reflexivity|].
  simpl. rewrite <- seq_shift, map_map. f_equal. exact IH.
Qed.

Lemma map_sadd {X : Type} (f g : X -> R) (js : list X) :
  map (fun j => sadd (f j) (g j)) js = vplus (map f js) (map g js).
Proof.
  induction js as [|j js IH]; [reflexivity|].
  unfold vplus in *; simpl. rewrite IH; reflexivity.
Qed.

Lemma dot_zeros {X : Type} q (js : list X) :
  dot q (map (fun _ => s0) js) = s0.
Proof.
  revert js; induction q as [|a q IH]; intros [|j js]; try reflexivity.
  specialize (IH js). unfold dot, hadamard in *; simpl.
  rewrite IH, (smul_comm a), smul_0_l, sadd_0_l. reflexivity.
Qed.

Lemma dot_scale q (t : R) row :
  dot q (map (smul t) row) = smul (dot row q) t.
Proof.
  revert row; induction q as [|a q IH]; intros [|b row].
  - unfold dot; simpl. rewrite smul_0_l; reflexivity.
  - unfold dot; simpl. rewrite smul_0_l; reflexivity.
  - unfold dot; simpl. rewrite smul_0_l; reflexivity.
  - specialize (IH row). unfold dot, hadamard in *; simpl.
    rewrite IH, smul_add_distr_r. f_equal.
    rewrite (smul_comm t b), smul_assoc, (smul_comm a b). reflexivity.
Qed.

(** Exchange of the two sums in yᵗ·(M·q). *)
Lemma dot_matvec M q y n :
  Forall (fun row => length row = n) M -> length q = n ->
  length y = length M ->
  dot (matvec M q) y = dot q (map (fun j => dot y (column j M)) (seq 0 n)).
Proof.
  intros Hrows Hq; revert y.
  induction M as [|row M IH]; intros [|t y] Hy; simpl in Hy; try discriminate.
  - change (map (fun j => dot [] (column j [])) (seq 0 n))
      with (map (fun _ : nat => s0) (seq 0 n)).
    rewrite dot_zeros; reflexivity.
  - pose proof (Forall_inv Hrows) as Hrow.
    pose proof (Forall_inv_tail Hrows) as Hrows'.
    assert (Hscale : map (fun j => smul t (nth j row s0)) (seq 0 n) =
                     map (smul t) row).
    { rewrite <- Hrow, <- (map_map (fun j => nth j row s0) (smul t)), map_nth_seq.
      reflexivity. }
    change (dot (matvec (row :: M) q) (t :: y))
      with (sadd (smul (dot row q) t) (dot (matvec M q) y)).
    change (map (fun j => dot (t :: y) (column j (row :: M))) (seq 0 n))
      with (map (fun j => sadd (smul t (nth j row s0)) (dot y (column j M)))
                (seq 0 n)).
    rewrite (map_sadd (fun j => smul t (nth j row s0))
                      (fun j => dot y (column j M))).
    rewrite dot_vplus_r by (rewrite !length_map; reflexivity).
    rewrite Hscale, dot_scale, (IH Hrows' y) by lia.
    reflexivity.
Qed.

(** X14 — The inverse-square-root operator is symmetric in exact
    arithmetic: when the stored eigenbasis and scales have the size of
    the operator, mult and transMult return on inputs of that size and
    dot(O.mult(x), y) = dot(x, O.transMult(y)). *)
Theorem Cm05Matrix_is_symmetric size ew EV mul M x y :
  consistent (Cm05Matrix size ew EV mul M) ->
  length x = size -> length y = size ->
  exists u v,
    mult (Cm05Matrix size ew EV mul M) x = Ok u /\
    transMult (Cm05Matrix size ew EV mul M) y = Ok v /\
    dot u y = dot x v.
Proof.
  intros (HEV & Hrows & Hmul) Hx Hy.
  set (vm := fun z : vec R => map (fun j => dot z (column j EV)) (seq 0 size)).
  assert (Hvm : forall z, length (vm z) = size)
    by (intros z; unfold vm; rewrite length_map, length_seq; reflexivity).
  assert (Hq : forall z, length (hadamard (vm z) mul) = size)
    by (intros z; rewrite hadamard_length; rewrite Hvm; auto).
  exists (matvec EV (hadamard (vm x) mul)), (matvec EV (hadamard (vm y) mul)).
  split; [exact (Cm05_mult_eq EV mul x size HEV Hrows Hmul Hx)|].
  split; [exact (Cm05_mult_eq EV mul y size HEV Hrows Hmul Hy)|].
  rewrite (dot_matvec EV _ y size Hrows (Hq x)) by lia.
  rewrite (dot_comm x _ smul_comm).
  rewrite (dot_matvec EV _ x size Hrows (Hq y)) by lia.
  fold (vm x) (vm y).
  rewrite (dot_hadamard (vm y) mul (vm x)).
  apply dot_comm; exact smul_comm.
Qed.

End Symmetric.

(** ** The operators are additive *)

Section Additive.
Context {R : Type} {S : Scalar R} {V : VectorLib R} {L : CommSemiring R}.
Implicit Types (A B O : Matrix R) (l r x y u v a b c d q : vec R).

Lemma vplus_swap a b c d :
  vplus (vplus a b) (vplus c d) = vplus (vplus a c) (vplus b d).
Proof.
  revert b c d; induction a as [|s a IH]; intros b c d; [reflexivity|].
  destruct b as [|t b]; [destruct c; reflexivity|].
  destruct c as [|s' c]; [reflexivity|].
  destruct d as [|t' d]; [reflexivity|].
  unfold vplus in *; simpl. rewrite IH, sadd_swap; reflexivity.
Qed.

Lemma hadamard_vplus_distr_r a b l :
  hadamard (vplus a b) l = vplus (hadamard a l) (hadamard b l).
Proof.
  rewrite (hadamard_comm (vplus a b) l smul_comm), hadamard_vplus_distr.
  rewrite (hadamard_comm l a smul_comm), (hadamard_comm l b smul_comm).
  reflexivity.
Qed.

Lemma matvec_additive (M : ndarray R) q q' :
  length q = length q' ->
  matvec M (vplus q q') = vplus (matvec M q) (matvec M q').
Proof.
  intros H; unfold matvec.
  rewrite <- (map_sadd (fun row => dot row q) (fun row => dot row q')).
  apply map_ext; intros row. apply dot_vplus_r; exact H.
Qed.

Lemma columns_additive (M : ndarray R) x x' (js : list nat) :
  length x = length x' ->
  map (fun j => dot (vplus x x') (column j M)) js =
  vplus (map (fun j => dot x (column j M)) js)
        (map (fun j => dot x' (column j M)) js).
Proof.
  intros H.
  rewrite <- (map_sadd (fun j => dot x (column j M)) (fun j => dot x' (column j M))).
  apply map_ext; intros j. apply dot_vplus_l; exact H.
Qed.

Lemma Cm05_mult_additive (EV : ndarray R) (mul : vec R) x x' n :
  length EV = n -> Forall (fun row => length row = n) EV ->
  length mul = n -> length x = n -> length x' = n ->
  exists u u',
    Cm05_mult EV mul x = Ok u /\ Cm05_mult EV mul x' = Ok u' /\
    Cm05_mult EV mul (vplus x x') = Ok (vplus u u').
Proof.
  intros HEV Hrows Hmul Hx Hx'.
  assert (Hs : length (vplus x x') = n) by (rewrite vplus_length; lia).
  do 2 eexists.
  rewrite (Cm05_mult_eq EV mul x n), (Cm05_mult_eq EV mul x' n),
    (Cm05_mult_eq EV mul (vplus x x') n) by assumption.
  repeat split. f_equal.
  rewrite columns_additive by lia.
  rewrite hadamard_vplus_distr_r.
  apply matvec_additive.
  rewrite !hadamard_length; rewrite ?length_map, ?length_seq; lia.
Qed.

Lemma mult_additive O :
  consistent O -> leaves sized_leaf O -> leaves additive_leaf O ->
  forall x x', length x = cols O -> length x' = cols O ->
  exists u u',
    mult O x = Ok u /\ mult O x' = Ok u' /\
    mult O (vplus x x') = Ok (vplus u u').
Proof.
  induction O as [Lf|A IH l|A IH r perm|A IH l r|A IHA B IHB|A IHA B IHB|d
                 |size ew EV mul M]; simpl consistent; simpl leaves;
    intros HC HS HA x x' Hx Hx'; simpl rows in *; simpl cols in *.
  - destruct (proj1 HS x Hx) as (u & Eu & Hu).
    destruct (proj1 HS x' Hx') as (u' & Eu' & Hu').
    destruct (proj1 HS (vplus x x')) as (w & Ew & Hw);
      [rewrite vplus_length; lia|].
    exists u, u'. simpl. rewrite Eu, Eu', Ew. repeat split.
    f_equal. exact (proj1 HA x x' u u' w Hx Hx' Eu Eu' Ew).
  - destruct HC as (HC & Hlen).
    destruct (IH HC HS HA x x' Hx Hx') as (u & u' & Eu & Eu' & Es).
    destruct (consistent_returns_sized A HC HS) as (Hm & _).
    pose proof (Hm x u Hx Eu). pose proof (Hm x' u' Hx' Eu').
    exists (hadamard u l), (hadamard u' l).
    rewrite !mult_MultLeftMatrix, Eu, Eu', Es; simpl.
    rewrite !vmul_same by (rewrite ?vplus_length; lia).
    rewrite hadamard_vplus_distr_r; repeat split.
  - destruct HC as (HC & Hlen).
    assert (H1 : length (hadamard x r) = cols A) by (rewrite hadamard_length; lia).
    assert (H2 : length (hadamard x' r) = cols A) by (rewrite hadamard_length; lia).
    destruct (IH HC HS HA _ _ H1 H2) as (u & u' & Eu & Eu' & Es).
    exists u, u'.
    rewrite !mult_MultRightMatrix.
    replace (length x =? length r) with true by (symmetry; apply Nat.eqb_eq; lia).
    replace (length x' =? length r) with true by (symmetry; apply Nat.eqb_eq; lia).
    replace (length (vplus x x') =? length r) with true
      by (symmetry; apply Nat.eqb_eq; rewrite vplus_length; lia).
    simpl. rewrite !vmul_same by (rewrite ?vplus_length; lia); simpl.
    rewrite hadamard_vplus_distr_r, Eu, Eu', Es; repeat split.
  - destruct HC as (HC & Hr & Hl).
    assert (H1 : length (hadamard x r) = cols A) by (rewrite hadamard_length; lia).
    assert (H2 : length (hadamard x' r) = cols A) by (rewrite hadamard_length; lia).
    destruct (IH HC HS HA _ _ H1 H2) as (u & u' & Eu & Eu' & Es).
    destruct (consistent_returns_sized A HC HS) as (Hm & _).
    pose proof (Hm _ u H1 Eu). pose proof (Hm _ u' H2 Eu').
    exists (hadamard u l), (hadamard u' l).
    rewrite !mult_MultLeftRightMatrix.
    rewrite !(vmul_same _ r) by (rewrite ?vplus_length; lia); simpl.
    rewrite hadamard_vplus_distr_r, Eu, Eu', Es; simpl.
    rewrite !vmul_same by (rewrite ?vplus_length; lia).
    rewrite hadamard_vplus_distr_r; repeat split.
  - destruct HC as (HCA & HCB & Hrows & Hcols); destruct HS as (HSA & HSB);
      destruct HA as (HAA & HAB).
    destruct (IHA HCA HSA HAA x x' Hx Hx') as (a & a' & Ea & Ea' & Eas).
    destruct (IHB HCB HSB HAB x x' ltac:(lia) ltac:(lia))
      as (b & b' & Eb & Eb' & Ebs).
    destruct (consistent_returns_sized A HCA HSA) as (HmA & _).
    destruct (consistent_returns_sized B HCB HSB) as (HmB & _).
    pose proof (HmA x a Hx Ea). pose proof (HmA x' a' Hx' Ea').
    pose proof (HmB x b ltac:(lia) Eb). pose proof (HmB x' b' ltac:(lia) Eb').
    exists (vplus a b), (vplus a' b').
    simpl mult. rewrite Ea, Ea', Eas, Eb, Eb', Ebs; simpl.
    rewrite !vadd_same by (rewrite ?vplus_length; lia).
    rewrite vplus_swap; repeat split.
  - destruct HC as (HCA & HCB & Hin); destruct HS as (HSA & HSB);
      destruct HA as (HAA & HAB).
    destruct (IHB HCB HSB HAB x x' Hx Hx') as (b & b' & Eb & Eb' & Ebs).
    destruct (consistent_returns_sized B HCB HSB) as (HmB & _).
    pose proof (HmB x b Hx Eb). pose proof (HmB x' b' Hx' Eb').
    destruct (IHA HCA HSA HAA b b' ltac:(lia) ltac:(lia))
      as (u & u' & Eu & Eu' & Es).
    exists u, u'.
    simpl mult. rewrite Eb, Eb', Ebs; simpl. repeat split; assumption.
  - exists (hadamard x d), (hadamard x' d).
    simpl mult. rewrite !vmul_same by (rewrite ?vplus_length; lia).
    rewrite hadamard_vplus_distr_r; repeat split.
  - destruct HC as (HEV & Hrows & Hmul).
    simpl mult. apply (Cm05_mult_additive EV mul x x' size); assumption.
Qed.

Lemma transMult_additive O :
  consistent O -> leaves sized_leaf O -> leaves additive_leaf O ->
  forall y y', length y = rows O -> length y' = rows O ->
  exists v v',
    transMult O y = Ok v /\ transMult O y' = Ok v' /\
    transMult O (vplus y y') = Ok (vplus v v').
Proof.
  induction O as [Lf|A IH l|A IH r perm|A IH l r|A IHA B IHB|A IHA B IHB|d
                 |size ew EV mul M]; simpl consistent; simpl leaves;
    intros HC HS HA y y' Hy Hy'; simpl rows in *; simpl cols in *.
  - destruct (proj2 HS y Hy) as (v & Ev & Hv).
    destruct (proj2 HS y' Hy') as (v' & Ev' & Hv').
    destruct (proj2 HS (vplus y y')) as (w & Ew & Hw);
      [rewrite vplus_length; lia|].
    exists v, v'. simpl. rewrite Ev, Ev', Ew. repeat split.
    f_equal. exact (proj2 HA y y' v v' w Hy Hy' Ev Ev' Ew).
  - destruct HC as (HC & Hlen).
    assert (H1 : length (hadamard y l) = rows A) by (rewrite hadamard_length; lia).
    assert (H2 : length (hadamard y' l) = rows A) by (rewrite hadamard_length; lia).
    destruct (IH HC HS HA _ _ H1 H2) as (v & v' & Ev & Ev' & Es).
    exists v, v'.
    rewrite !transMult_MultLeftMatrix.
    rewrite !vmul_same by (rewrite ?vplus_length; lia); simpl.
    rewrite hadamard_vplus_distr_r, Ev, Ev', Es; repeat split.
  - destruct HC as (HC & Hlen).
    destruct (IH HC HS HA y y' Hy Hy') as (v & v' & Ev & Ev' & Es).
    destruct (consistent_returns_sized A HC HS) as (_ & Ht).
    pose proof (Ht y v Hy Ev). pose proof (Ht y' v' Hy' Ev').
    exists (hadamard v r), (hadamard v' r).
    rewrite !transMult_MultRightMatrix, Ev, Ev', Es; simpl.
    rewrite !vmul_same by (rewrite ?vplus_length; lia).
    rewrite hadamard_vplus_distr_r; repeat split.
  - destruct HC as (HC & Hr & Hl).
    assert (H1 : length (hadamard y l) = rows A) by (rewrite hadamard_length; lia).
    assert (H2 : length (hadamard y' l) = rows A) by (rewrite hadamard_length; lia).
    destruct (IH HC HS HA _ _ H1 H2) as (v & v' & Ev & Ev' & Es).
    destruct (consistent_returns_sized A HC HS) as (_ & Ht).
    pose proof (Ht _ v H1 Ev). pose proof (Ht _ v' H2 Ev').
    exists (hadamard v r), (hadamard v' r).
    rewrite !transMult_MultLeftRightMatrix.
    rewrite !(vmul_same _ l) by (rewrite ?vplus_length; lia); simpl.
    rewrite hadamard_vplus_distr_r, Ev, Ev', Es; simpl.
    rewrite !vmul_same by (rewrite ?vplus_length; lia).
    rewrite hadamard_vplus_distr_r; repeat split.
  - destruct HC as (HCA & HCB & Hrows & Hcols); destruct HS as (HSA & HSB);
      destruct HA as (HAA & HAB).
    destruct (IHA HCA HSA HAA y y' Hy Hy') as (a & a' & Ea & Ea' & Eas).
    destruct (IHB HCB HSB HAB y y' ltac:(lia) ltac:(lia))
      as (b & b' & Eb & Eb' & Ebs).
    destruct (consistent_returns_sized A HCA HSA) as (_ & HtA).
    destruct (consistent_returns_sized B HCB HSB) as (_ & HtB).
    pose proof (HtA y a Hy Ea). pose proof (HtA y' a' Hy' Ea').
    pose proof (HtB y b ltac:(lia) Eb). pose proof (HtB y' b' ltac:(lia) Eb').
    exists (vplus a b), (vplus a' b').
    simpl transMult. rewrite Ea, Ea', Eas, Eb, Eb', Ebs; simpl.
    rewrite !vadd_same by (rewrite ?vplus_length; lia).
    rewrite vplus_swap; repeat split.
  - destruct HC as (HCA & HCB & Hin); destruct HS as (HSA & HSB);
      destruct HA as (HAA & HAB).
    destruct (IHA HCA HSA HAA y y' Hy Hy') as (a & a' & Ea & Ea' & Eas).
    destruct (consistent_returns_sized A HCA HSA) as (_ & HtA).
    pose proof (HtA y a Hy Ea). pose proof (HtA y' a' Hy' Ea').
    destruct (IHB HCB HSB HAB a a' ltac:(lia) ltac:(lia))
      as (v & v' & Ev & Ev' & Es).
    exists v, v'.
    simpl transMult. rewrite Ea, Ea', Eas; simpl. repeat split; assumption.
  - exists (hadamard y d), (hadamard y' d).
    simpl transMult. rewrite !vmul_same by (rewrite ?vplus_length; lia).
    rewrite hadamard_vplus_distr_r; repeat split.
  - destruct HC as (HEV & Hrows & Hmul).
    simpl transMult. apply (Cm05_mult_additive EV mul y y' size); assumption.
Qed.

(** X15 — The operators are additive in exact arithmetic. For an
    operator that satisfies the dimension invariants, over leaves that
    honour the contract and are additive, and for inputs of the right
    length: mult(x + x') = mult(x) + mult(x') and
    transMult(y + y') = transMult(y) + transMult(y'), all calls
    returning. *)
Theorem operators_are_additive O x x' y y' :
  consistent O -> leaves sized_leaf O -> leaves additive_leaf O ->
  length x = cols O -> length x' = cols O ->
  length y = rows O -> length y' = rows O ->
  (exists u u', mult O x = Ok u /\ mult O x' = Ok u' /\
                mult O (vplus x x') = Ok (vplus u u')) /\
  (exists v v', transMult O y = Ok v /\ transMult O y' = Ok v' /\
                transMult O (vplus y y') = Ok (vplus v v')).
Proof.
  intros HC HS HA Hx Hx' Hy Hy'.
  split; [apply mult_additive | apply transMult_additive]; assumption.
Qed.

End Additive.

(** ** Concrete runs of the properties above *)

Lemma identity_additive (R : Type) (S : Scalar R) (n : nat) :
  additive_leaf (identity_leaf (R:=R) n).
Proof.
  split; intros x x' u u' w Hx Hx' Eu Eu' Ew; simpl in *;
    rewrite Hx in Eu; rewrite Hx' in Eu'; rewrite Nat.eqb_refl in Eu, Eu';
    injection Eu as <-; injection Eu' as <-;
    destruct (length (vplus x x') =? n); congruence.
Qed.

Lemma sample_operator_additive_leaves : leaves additive_leaf sample_operator.
Proof. simpl; repeat split; apply identity_additive. Qed.

Lemma two_sided_is_composition_witness :
  mult (MultLeftRightMatrix (Leaf (identity_leaf 2)) [5; 7]%Z [2; 1]%Z) [1; 1]%Z =
  mult (MultLeftMatrix (MultRightMatrix (Leaf (identity_leaf 2)) [2; 1]%Z None)
                       [5; 7]%Z) [1; 1]%Z.
Proof.
  apply (@two_sided_is_composition Z Z_Scalar (strict_lib Z)
           (Leaf (identity_leaf 2)) [5; 7]%Z [2; 1]%Z None [1; 1]%Z [3; 4]%Z).
  reflexivity.
Defined.

Lemma default_right_weight_is_neutral_witness :
  exists O,
    MultRightMatrix_init (DiagonalMatrix [2; 3]%Z) None = Ok O /\
    (consistent (DiagonalMatrix [2; 3]%Z) -> consistent O) /\
    rows O = 2 /\ cols O = 2 /\
    mult O [1; 1]%Z = mult (DiagonalMatrix [2; 3]%Z) [1; 1]%Z /\
    transMult O [4; 5]%Z = transMult (DiagonalMatrix [2; 3]%Z) [4; 5]%Z.
Proof.
  apply (@default_right_weight_is_neutral Z Z_Scalar (strict_lib Z)
           (DiagonalMatrix [2; 3]%Z) [1; 1]%Z [4; 5]%Z).
  - exact Z.mul_1_r.
  - apply consistent_returns_sized; exact I.
  - reflexivity.
  - reflexivity.
Defined.

Lemma product_is_associative_witness :
  exists AB BC P Q,
    Mult2Matrix_init (DiagonalMatrix [2; 3]%Z) (Leaf (identity_leaf 2)) = Ok AB /\
    Mult2Matrix_init (Leaf (identity_leaf 2)) (DiagonalMatrix [4; 5]%Z) = Ok BC /\
    Mult2Matrix_init AB (DiagonalMatrix [4; 5]%Z) = Ok P /\
    Mult2Matrix_init (DiagonalMatrix [2; 3]%Z) BC = Ok Q /\
    rows P = rows Q /\ cols P = cols Q /\
    (forall x, mult P x = mult Q x) /\
    (forall y, transMult P y = transMult Q y).
Proof.
  apply (@product_is_associative Z Z_Scalar (strict_lib Z)
           (DiagonalMatrix [2; 3]%Z) (Leaf (identity_leaf 2))
           (DiagonalMatrix [4; 5]%Z)).
  - reflexivity.
  - reflexivity.
Defined.

Lemma sum_is_commutative_witness :
  mult (Add2Matrix (DiagonalMatrix [2; 3]%Z) (Leaf (identity_leaf 2))) [1; 1]%Z =
  mult (Add2Matrix (Leaf (identity_leaf 2)) (DiagonalMatrix [2; 3]%Z)) [1; 1]%Z.
Proof.
  apply (@sum_is_commutative Z Z_Scalar (strict_lib Z)
           (DiagonalMatrix [2; 3]%Z) (Leaf (identity_leaf 2)) [1; 1]%Z [4; 5]%Z).
  - exact Z.add_comm.
  - reflexivity.
  - reflexivity.
  - exact I.
  - exact I.
  - exact I.
  - apply identity_sized.
  - reflexivity.
  - reflexivity.
Defined.

Lemma diagonal_sum_and_product_witness :
  mult (Add2Matrix (DiagonalMatrix [1; 2]%Z) (DiagonalMatrix [3; 4]%Z)) [1; 1]%Z =
  mult (DiagonalMatrix (vplus [1; 2]%Z [3; 4]%Z)) [1; 1]%Z.
Proof.
  apply (@diagonal_sum_and_product Z Z_Scalar (strict_lib Z) Z_CommSemiring
           [1; 2]%Z [3; 4]%Z [1; 1]%Z).
  - reflexivity.
  - reflexivity.
Defined.

Lemma built_sample_built : built built_sample.
Proof.
  apply (built_Add2 (MultLeftMatrix (Leaf (identity_leaf 2)) [3; 4]%Z)
                    (MultRightMatrix (DiagonalMatrix [5; 6]%Z) [1; 1]%Z None)).
  - apply (built_MultLeft (Leaf (identity_leaf 2)) [3; 4]%Z);
      [apply built_Leaf | reflexivity].
  - apply (built_MultRight_default (DiagonalMatrix [5; 6]%Z));
      [apply (built_Diagonal [5; 6]%Z); reflexivity | reflexivity].
  - reflexivity.
Qed.

Lemma built_operators_apply_witness :
  consistent built_sample /\ no_perm built_sample /\
  (forall x, length x = cols built_sample ->
     exists u, mult built_sample x = Ok u /\ length u = rows built_sample) /\
  (forall y, length y = rows built_sample ->
     exists v, transMult built_sample y = Ok v /\ length v = cols built_sample).
Proof.
  apply (@built_operators_apply Z Z_Scalar (strict_lib Z) built_sample).
  - exact built_sample_built.
  - simpl; repeat split; apply identity_sized.
Defined.

Lemma rebinding_frame_witness :
  rows (MultLeftMatrix (DiagonalMatrix [1; 1]%Z) [5%Z]) = 2 /\
  cols (MultLeftMatrix (DiagonalMatrix [1; 1]%Z) [5%Z]) = 2 /\
  getattr (MultLeftMatrix (DiagonalMatrix [1; 1]%Z) [5%Z]) attr_r = Ok [5%Z].
Proof.
  destruct (@rebinding_frame Z
              (MultLeftMatrix (DiagonalMatrix [1; 1]%Z) [1; 1]%Z) attr_r [5%Z]
              (MultLeftMatrix (DiagonalMatrix [1; 1]%Z) [5%Z]) eq_refl)
    as (Hr & Hc & _ & _ & Hg & _).
  split; [exact Hr|]. split; [exact Hc|].
  apply Hg; [reflexivity | discriminate].
Defined.

Lemma wrong_rebinding_fails_at_apply_witness :
  exists m,
    setattr (MultLeftRightMatrix (Leaf (identity_leaf 2)) [1; 2]%Z [3; 4]%Z)
            attr_r [5%Z] = Ok m /\
    (exists e, mult m [1; 1]%Z = Raise e) /\
    (exists e, transMult m [1; 1]%Z = Raise e).
Proof.
  apply (@wrong_rebinding_fails_at_apply Z Z_Scalar (strict_lib Z)
           (Leaf (identity_leaf 2)) [1; 2]%Z [3; 4]%Z [5%Z] [1; 1]%Z [1; 1]%Z).
  - apply strict_lib_strict.
  - apply consistent_returns_sized; [exact I | apply identity_sized].
  - reflexivity.
  - reflexivity.
  - discriminate.
  - discriminate.
  - reflexivity.
  - reflexivity.
Defined.

Lemma Cm05Matrix_is_symmetric_witness :
  exists u v,
    mult (Cm05Matrix 2 [4; 9]%Z [[1; 2]; [3; 4]]%Z [5; 6]%Z [[1; 0]; [0; 1]]%Z)
         [1; 2]%Z = Ok u /\
    transMult (Cm05Matrix 2 [4; 9]%Z [[1; 2]; [3; 4]]%Z [5; 6]%Z [[1; 0]; [0; 1]]%Z)
         [3; 4]%Z = Ok v /\
    dot u [3; 4]%Z = dot [1; 2]%Z v.
Proof.
  apply (@Cm05Matrix_is_symmetric Z Z_Scalar (strict_lib Z) Z_CommSemiring
           Z.mul_0_l 2 [4; 9]%Z [[1; 2]; [3; 4]]%Z [5; 6]%Z [[1; 0]; [0; 1]]%Z
           [1; 2]%Z [3; 4]%Z).
  - simpl; repeat split; repeat constructor.
  - reflexivity.
  - reflexivity.
Defined.

Lemma operators_are_additive_witness :
  (exists u u',
     mult sample_operator [1; 2]%Z = Ok u /\ mult sample_operator [3; 4]%Z = Ok u' /\
     mult sample_operator (vplus [1; 2]%Z [3; 4]%Z) = Ok (vplus u u')) /\
  (exists v v',
     transMult sample_operator [5; 6]%Z = Ok v /\
     transMult sample_operator [7; 8]%Z = Ok v' /\
     transMult sample_operator (vplus [5; 6]%Z [7; 8]%Z) = Ok (vplus v v')).
Proof.
  apply (@operators_are_additive Z Z_Scalar (strict_lib Z) Z_CommSemiring
           sample_operator [1; 2]%Z [3; 4]%Z [5; 6]%Z [7; 8]%Z).
  - exact sample_operator_consistent.
  - exact sample_operator_sized.
  - exact sample_operator_additive_leaves.
  - reflexivity.
  - reflexivity.
  - reflexivity.
  - reflexivity.
Defined.
